(** * SVNMerge: cherry-picking a list of revisions with rollback

    A shallow embedding of the two scripts of the repository,
    [SVNMerge.py] (the strict variant) and [SVMMergeWithTortoise.py] (the
    interactive variant), and the proofs of the properties their
    specification states about them.

    The scripts are sequential Python programs whose only effects are
    lines printed on the console and external processes started with
    [subprocess.run].  Both are kept in a trace, in the order they happen;
    what an external process answers is read from an oracle.  Python
    exceptions are values of a small error type, and [try]/[except] is a
    combinator that selects the handler by exception class. *)

From Stdlib Require Import String Ascii List ZArith Bool Lia DecimalString.
Import ListNotations.
Open Scope string_scope.

(** ** The Python runtime the scripts rely on *)

Module Py.

(** The line feed written [\n] in the source, and the carriage return. *)
Definition nl : string := String (ascii_of_nat 10) EmptyString.
Definition cr : string := String (ascii_of_nat 13) EmptyString.

(** [str(n)] for an integer. *)
Definition str_int (n : Z) : string := NilZero.string_of_int (Z.to_int n).

(** [sep.join(words)]. *)
Definition join (sep : string) (words : list string) : string :=
  String.concat sep words.

(** [c.isspace()], for the code points below 256: the characters
    [str.strip()] removes. *)
Definition isspace (c : ascii) : bool :=
  let n := nat_of_ascii c in
  (((9 <=? n) && (n <=? 13)) || ((28 <=? n) && (n <=? 32))
   || (n =? 133) || (n =? 160))%nat.

Fixpoint lstrip (s : string) : string :=
  match s with
  | EmptyString => EmptyString
  | String c s' => if isspace c then lstrip s' else s
  end.

Fixpoint rstrip (s : string) : string :=
  match s with
  | EmptyString => EmptyString
  | String c s' =>
      match rstrip s' with
      | EmptyString => if isspace c then EmptyString else String c EmptyString
      | r => String c r
      end
  end.

(** [s.strip()]. *)
Definition strip (s : string) : string := rstrip (lstrip s).

(** What reading a stream in text mode makes of its line ends: a
    carriage return followed by a line feed, and a carriage return alone,
    become one line feed. *)
Fixpoint universal_newlines (s : string) : string :=
  match s with
  | EmptyString => EmptyString
  | String c s' =>
      if (nat_of_ascii c =? 13)%nat
      then match s' with
           | String c' s'' =>
               if (nat_of_ascii c' =? 10)%nat
               then String c' (universal_newlines s'')
               else String (ascii_of_nat 10) (universal_newlines s')
           | EmptyString => String (ascii_of_nat 10) EmptyString
           end
      else String c (universal_newlines s')
  end.

(** Truth value of a string: the empty string is false. *)
Definition truthy_str (s : string) : bool :=
  match s with EmptyString => false | _ => true end.

(** The exceptions the scripts can meet.  [SystemExit] derives from
    [BaseException] only; every other one derives from [Exception].
    [FileNotFoundError] is the [OSError] raised when an executable cannot be
    located, [OSError] stands for any other failure to start a process or
    to open a file, and [UnicodeDecodeError] is what reading a file that
    is not text in its encoding raises. *)
Inductive exn : Type :=
| RuntimeError (message : string)
| CalledProcessError (returncode : Z) (cmd : list string)
                     (stdout stderr : option string)
| FileNotFoundError
| OSError
| UnicodeDecodeError
| AttributeError
| SystemExit (code : Z).

(** [isinstance(e, Exception)]. *)
Definition is_Exception (e : exn) : bool :=
  match e with
  | SystemExit _ => false
  | _ => true
  end.

(** An external process is started with an argument vector and, with
    [cwd=...], in a given directory. *)
Record invocation : Type := Invocation {
  argv : list string;
  cwd : option string
}.

(** What starting a process and waiting for it gives: it ran and exited
    with a return code, having written its two output streams; or its
    executable was not found; or it could not be started for another
    reason.  The streams are given as text: the characters the bytes of
    the process stand for in the encoding of the locale, line ends as the
    process wrote them.  Output that is not text in that encoding is
    outside the model. *)
Inductive outcome : Type :=
| Exited (returncode : Z) (stdout stderr : string)
| NotFound
| CannotStart.

(** What stands between the colon and the error in the two lines that
    announce a rollback: a line feed in [SVNMerge.py], a space in
    [SVMMergeWithTortoise.py]. *)
Inductive separator : Type := LineFeed | Space.

(** The lines the scripts print, each with the values it interpolates. *)
Inductive message : Type :=
| MsgConfigNotFound (config_file : string)
    (* Configuration file {config_file} not found. *)
| MsgConfigParseError (e : string)
    (* Error parsing configuration file: {e} *)
| MsgSwitching (branch_path : string)
    (* Switching to branch: {branch_path} *)
| MsgUpdating
    (* Updating working directory to the latest revision... *)
| MsgRevertingWorkingDir
    (* Reverting all changes in the working directory... *)
| MsgMerging (revision source_branch : string)
    (* Merging revision {revision} from {source_branch}... *)
| MsgInvalidConfig
    (* Invalid configuration. Please ensure all required fields are provided. *)
| MsgMerged (revision : string)
    (* Successfully merged revision {revision} to local working directory. *)
| MsgMergeFailed (sep : separator) (revision : string) (e : exn)
    (* Failed to merge revision {revision}:{sep}{e} *)
| MsgReverting
    (* Reverting all changes... *)
| MsgAllProcessed
    (* All revisions processed! Please review the changes in your working
       directory before committing. *)
| MsgErrorOccurred (sep : separator) (e : exn)
    (* An error occurred:{sep}{e} *)
| MsgLaunchingTortoise
    (* Launching TortoiseSVN to resolve conflicts... *)
| MsgPleaseResolve
    (* Please resolve conflicts using TortoiseSVN and then mark them as
       resolved. *)
| MsgTortoiseNotFound
    (* TortoiseSVN not found. Please ensure it is installed and added to
       PATH. *)
| MsgTortoiseError (e : exn)
    (* Error launching TortoiseSVN: {e} *)
| MsgConflict (revision : string) (e : exn)
    (* Conflict detected during merge of revision {revision}: {e} *)
| MsgLaunchingResolution
    (* Launching TortoiseSVN for conflict resolution... *).

(** What a run does, in order. *)
Inductive event : Type :=
| Print (m : message)
| Call (i : invocation) (o : outcome).

Definition trace : Type := list event.

(** The processes started so far, with what each answered. *)
Fixpoint calls (t : trace) : list (invocation * outcome) :=
  match t with
  | [] => []
  | Print _ :: t' => calls t'
  | Call i o :: t' => (i, o) :: calls t'
  end.

(** The lines printed so far. *)
Fixpoint printed (t : trace) : list message :=
  match t with
  | [] => []
  | Print m :: t' => m :: printed t'
  | Call _ _ :: t' => printed t'
  end.

(** The environment: what the [n]-th process started during the run
    answers. *)
Definition oracle : Type := nat -> outcome.

(** A statement either completes with a value or raises. *)
Inductive result (A : Type) : Type :=
| Return (a : A)
| Raise (e : exn).
Arguments Return {A} a.
Arguments Raise {A} e.

(** Computations: they read the oracle and extend the trace. *)
Definition M (A : Type) : Type := oracle -> trace -> result A * trace.

Definition ret {A} (a : A) : M A := fun _ t => (Return a, t).

Definition raise {A} (e : exn) : M A := fun _ t => (Raise e, t).

Definition bind {A B} (m : M A) (k : A -> M B) : M B :=
  fun o t =>
    match m o t with
    | (Return a, t') => k a o t'
    | (Raise e, t') => (Raise e, t')
    end.

Declare Scope py_scope.
Delimit Scope py_scope with py.
Notation "x <- m ;; k" := (bind m (fun x => k))
  (at level 100, m at next level, right associativity) : py_scope.
Notation "m ;; k" := (bind m (fun _ => k))
  (at level 100, right associativity) : py_scope.
Open Scope py_scope.

(** [try: body / except ...: handler].  [handler e] is [None] when no
    [except] clause matches the class of [e], which then propagates. *)
Definition try_except {A} (body : M A) (handler : exn -> option (M A)) : M A :=
  fun o t =>
    match body o t with
    | (Return a, t') => (Return a, t')
    | (Raise e, t') =>
        match handler e with
        | Some h => h o t'
        | None => (Raise e, t')
        end
    end.

(** [print(...)]. *)
Definition print (m : message) : M unit :=
  fun _ t => (Return tt, (t ++ [Print m])%list).

(** [sys.exit(code)]. *)
Definition sys_exit {A} (code : Z) : M A := raise (SystemExit code).

(** Starting a process and waiting for it: the oracle answers for the
    process of that rank, and the call is recorded. *)
Definition spawn (i : invocation) : M outcome :=
  fun o t =>
    let r := o (length (calls t)) in
    (Return r, (t ++ [Call i r])%list).

(** The [CompletedProcess] object of a finished process. *)
Record CompletedProcess : Type := {
  cp_returncode : Z;
  cp_stdout : option string;
  cp_stderr : option string
}.

(** [subprocess.run(command, cwd=cwd, text=text,
    capture_output=capture_output, check=True)]: the streams are kept
    only when captured, in text mode they are read with their line ends
    translated, and a return code other than zero raises
    [CalledProcessError]. *)
Definition subprocess_run (command : list string) (cwd : option string)
    (text capture_output : bool) : M CompletedProcess :=
  r <- spawn (Invocation command cwd) ;;
  match r with
  | Exited rc out err =>
      let read s := if text then universal_newlines s else s in
      let so := if capture_output then Some (read out) else None in
      let se := if capture_output then Some (read err) else None in
      if (rc =? 0)%Z
      then ret {| cp_returncode := rc; cp_stdout := so; cp_stderr := se |}
      else raise (CalledProcessError rc command so se)
  | NotFound => raise FileNotFoundError
  | CannotStart => raise OSError
  end.

(** [x.strip()] on a stream attribute, which is [None] when the stream was
    not captured. *)
Definition attr_strip (x : option string) : M string :=
  match x with
  | Some s => ret (strip s)
  | None => raise AttributeError
  end.

(** [for x in xs: body(x)] over a list. *)
Fixpoint for_each {A} (xs : list A) (body : A -> M unit) : M unit :=
  match xs with
  | [] => ret tt
  | x :: xs' => body x ;; for_each xs' body
  end.

(** The exit status of the interpreter for a script that ends with the
    call [main()]: [0] when [main] returns, the code of an uncaught
    [SystemExit], and [1] after the traceback of any other uncaught
    exception. *)
Definition exit_status {A} (r : result A) : Z :=
  match r with
  | Return _ => 0
  | Raise (SystemExit code) => code
  | Raise _ => 1
  end.

End Py.
Import Py.

(** ** The configuration file *)

(** A revision of the [revisions] array: an integer or a string. *)
Inductive revision : Type :=
| RevInt (n : Z)
| RevStr (s : string).

(** [str(revision)]. *)
Definition str_revision (r : revision) : string :=
  match r with
  | RevInt n => str_int n
  | RevStr s => s
  end.

(** The object of [config.json]: three strings and an array of revisions,
    each of which may be absent ([config.get] then gives [None]).  Values
    of other JSON types are outside the model. *)
Record config : Type := Config {
  source_branch : option string;
  target_branch : option string;
  working_dir : option string;
  revisions : option (list revision)
}.

(** What [json.load] gives: an object, or a value of another JSON type
    (an array, a string, a number, [true], [false] or [null]). *)
Inductive document : Type :=
| JObject (c : config)
| JOther.

(** What the script finds at the path of its configuration file: nothing;
    something that cannot be opened for reading (a directory, a file it
    has no right to read); a file that is not text in UTF-8; text that is
    not JSON (with the decoder's complaint); JSON that is not an object;
    or an object. *)
Inductive file_state : Type :=
| Absent
| Unreadable
| Undecodable
| Unparsable (e : string)
| NotAnObject
| Holds (c : config).

(** [config.get(...)]: a value that is not an object has no such
    method. *)
Definition get_fields (d : document) : M config :=
  match d with
  | JObject c => ret c
  | JOther => raise AttributeError
  end.

(** [config.get(key)]: [None] when the key is absent, and [None] is false
    like the empty string. *)
Definition truthy (x : option string) : bool :=
  match x with
  | Some s => truthy_str s
  | None => false
  end.

(** [config.get("revisions", [])]. *)
Definition get_revisions (c : config) : list revision :=
  match revisions c with
  | Some l => l
  | None => []
  end.

(** Truth value of a list: the empty list is false. *)
Definition truthy_list {A} (l : list A) : bool :=
  match l with
  | [] => false
  | _ => true
  end.

(** The string behind a value that passed the truth test. *)
Definition as_str (x : option string) : string :=
  match x with
  | Some s => s
  | None => EmptyString
  end.

(** ** SVNMerge.py, the strict variant *)

Module SVNMerge.

(** [os.path.exists] answers for [Absent]; [open] raises for
    [Unreadable], outside the [try]; [json.load] raises for [Undecodable],
    which no clause of the [try] catches, and for [Unparsable]; what it
    decodes is returned as it is, object or not. *)
Definition load_config (config_file : string) (disk : file_state)
    : M document :=
  match disk with
  | Absent => print (MsgConfigNotFound config_file) ;; sys_exit 1
  | Unreadable => raise OSError
  | Undecodable => raise UnicodeDecodeError
  | Unparsable e => print (MsgConfigParseError e) ;; sys_exit 1
  | NotAnObject => ret JOther
  | Holds c => ret (JObject c)
  end.

(** The text [run_command] gives the [RuntimeError] it raises, from the
    command, the return code and the two streams once stripped. *)
Definition error_message (command : list string) (returncode : Z)
    (stdout_stripped stderr_stripped : string) : string :=
  "Command failed: " ++ join " " command ++ nl ++
  "Return code: " ++ str_int returncode ++ nl ++
  "Output: " ++ stdout_stripped ++ nl ++
  "Error: " ++ stderr_stripped.

Definition run_command (command : list string) (cwd : option string)
    : M string :=
  try_except
    (result <- subprocess_run command cwd true true ;;
     attr_strip (cp_stdout result))
    (fun e =>
       match e with
       | CalledProcessError returncode _ stdout stderr =>
           Some (out <- attr_strip stdout ;;
                 err <- attr_strip stderr ;;
                 raise (RuntimeError (error_message command returncode out err)))
       | _ => None
       end).

Definition svn_switch (branch_path working_dir : string) : M unit :=
  print (MsgSwitching branch_path) ;;
  run_command ["svn"; "switch"; branch_path] (Some working_dir) ;;
  ret tt.

Definition svn_update (working_dir : string) : M unit :=
  print MsgUpdating ;;
  run_command ["svn"; "update"; "--set-depth"; "infinity"] (Some working_dir) ;;
  ret tt.

Definition svn_revert (working_dir : string) : M unit :=
  print MsgRevertingWorkingDir ;;
  run_command ["svn"; "revert"; "-R"; "."] (Some working_dir) ;;
  ret tt.

Definition svn_merge (revision source_branch working_dir : string) : M unit :=
  print (MsgMerging revision source_branch) ;;
  run_command
    ["svn"; "merge"; "-c"; revision; source_branch; "--accept"; "theirs-full"]
    (Some working_dir) ;;
  ret tt.

(** The body of the loop of [main] over the revisions. *)
Definition merge_step (source_branch working_dir : string) (revision : revision)
    : M unit :=
  try_except
    (svn_merge (str_revision revision) source_branch working_dir ;;
     print (MsgMerged (str_revision revision)))
    (fun e =>
       if is_Exception e
       then Some (print (MsgMergeFailed LineFeed (str_revision revision) e) ;;
                  print MsgReverting ;;
                  svn_revert working_dir ;;
                  sys_exit 1)
       else None).

Definition main (config_file : string) (disk : file_state) : M unit :=
  config <- load_config config_file disk ;;
  config <- get_fields config ;;
  if negb (truthy (source_branch config) && truthy (target_branch config)
           && truthy (working_dir config)
           && truthy_list (get_revisions config))
  then print MsgInvalidConfig ;; sys_exit 1
  else
    let source_branch := as_str (source_branch config) in
    let target_branch := as_str (target_branch config) in
    let working_dir := as_str (working_dir config) in
    try_except
      (svn_switch target_branch working_dir ;;
       svn_update working_dir ;;
       for_each (get_revisions config) (merge_step source_branch working_dir) ;;
       print MsgAllProcessed)
      (fun e =>
         if is_Exception e
         then Some (print (MsgErrorOccurred LineFeed e) ;;
                    print MsgReverting ;;
                    svn_revert working_dir ;;
                    sys_exit 1)
         else None).

End SVNMerge.

(** ** SVMMergeWithTortoise.py, the interactive variant *)

Module SVMMergeWithTortoise.

(** The first five functions have the same text in both scripts. *)
Definition load_config := SVNMerge.load_config.
Definition run_command := SVNMerge.run_command.
Definition svn_switch := SVNMerge.svn_switch.
Definition svn_update := SVNMerge.svn_update.
Definition svn_revert := SVNMerge.svn_revert.

Definition existWithError {A} (working_dir : string) : M A :=
  svn_revert working_dir ;;
  sys_exit 1.

Definition svn_resolve_with_tortoise (working_dir : string) : M unit :=
  print MsgLaunchingTortoise ;;
  let tortoise_proc_path := "TortoiseProc.exe" in
  try_except
    (subprocess_run
       [tortoise_proc_path; "/command:resolve"; "/path:" ++ working_dir]
       None false false ;;
     print MsgPleaseResolve)
    (fun e =>
       match e with
       | FileNotFoundError =>
           Some (print MsgTortoiseNotFound ;; existWithError working_dir)
       | CalledProcessError _ _ _ _ =>
           Some (print (MsgTortoiseError e) ;; existWithError working_dir)
       | _ => None
       end).

Definition svn_merge (revision source_branch working_dir : string) : M unit :=
  print (MsgMerging revision source_branch) ;;
  try_except
    (run_command
       ["svn"; "merge"; "-c"; revision; source_branch; "--accept"; "theirs-full"]
       (Some working_dir) ;;
     ret tt)
    (fun e =>
       match e with
       | RuntimeError _ =>
           Some (print (MsgConflict revision e) ;;
                 print MsgLaunchingResolution ;;
                 svn_resolve_with_tortoise working_dir)
       | _ => None
       end).

(** The body of the loop of [main] over the revisions. *)
Definition merge_step (source_branch working_dir : string) (revision : revision)
    : M unit :=
  try_except
    (svn_merge (str_revision revision) source_branch working_dir ;;
     print (MsgMerged (str_revision revision)))
    (fun e =>
       if is_Exception e
       then Some (print (MsgMergeFailed Space (str_revision revision) e) ;;
                  print MsgReverting ;;
                  existWithError working_dir)
       else None).

Definition main (config_file : string) (disk : file_state) : M unit :=
  config <- load_config config_file disk ;;
  config <- get_fields config ;;
  if negb (truthy (source_branch config) && truthy (target_branch config)
           && truthy (working_dir config)
           && truthy_list (get_revisions config))
  then print MsgInvalidConfig ;; sys_exit 1
  else
    let source_branch := as_str (source_branch config) in
    let target_branch := as_str (target_branch config) in
    let working_dir := as_str (working_dir config) in
    try_except
      (svn_switch target_branch working_dir ;;
       svn_update working_dir ;;
       for_each (get_revisions config) (merge_step source_branch working_dir) ;;
       print MsgAllProcessed)
      (fun e =>
         if is_Exception e
         then Some (print (MsgErrorOccurred Space e) ;;
                    print MsgReverting ;;
                    existWithError working_dir)
         else None).

End SVMMergeWithTortoise.

(** ** Observing a run *)

Open Scope list_scope.

(** A process that was started, with what it answered. *)
Definition call : Type := (invocation * outcome)%type.

(** A process succeeded when it exited with the return code zero. *)
Definition succeeded (o : outcome) : bool :=
  match o with
  | Exited rc _ _ => (rc =? 0)%Z
  | _ => false
  end.

(** A process ran to the end but reported a failure. *)
Definition exited_nonzero (o : outcome) : bool :=
  match o with
  | Exited rc _ _ => negb (rc =? 0)%Z
  | _ => false
  end.

(** The interactive tool is unavailable, or exits with a code other than
    zero. *)
Definition tool_failed (o : outcome) : bool :=
  match o with
  | Exited rc _ _ => negb (rc =? 0)%Z
  | NotFound => true
  | CannotStart => false
  end.

(** The operation of the version-control client an invocation asks for. *)
Definition is_svn (verb : string) (i : invocation) : bool :=
  match argv i with
  | program :: v :: _ => (program =? "svn") && (v =? verb)
  | _ => false
  end.

Definition is_switch : invocation -> bool := is_svn "switch".
Definition is_update : invocation -> bool := is_svn "update".
Definition is_merge : invocation -> bool := is_svn "merge".
Definition is_revert : invocation -> bool := is_svn "revert".

(** The reverts and the merges of a run, in order. *)
Definition reverts (t : trace) : list call :=
  filter (fun c => is_revert (fst c)) (calls t).

Definition merges (t : trace) : list call :=
  filter (fun c => is_merge (fst c)) (calls t).

(** The revisions the run reported as merged, in order. *)
Fixpoint merged (t : trace) : list string :=
  match t with
  | [] => []
  | Print (MsgMerged r) :: t' => r :: merged t'
  | _ :: t' => merged t'
  end.

(** ** Merge plans *)

(** The merge plan of the specification: the four fields of a
    configuration that passed the check of [main]. *)
Record plan : Type := Plan {
  plan_source : string;
  plan_target : string;
  plan_dir : string;
  plan_revisions : list revision
}.

Definition valid (p : plan) : Prop :=
  plan_source p <> "" /\ plan_target p <> "" /\ plan_dir p <> "" /\
  plan_revisions p <> [].

Definition config_of (p : plan) : config :=
  {| source_branch := Some (plan_source p);
     target_branch := Some (plan_target p);
     working_dir := Some (plan_dir p);
     revisions := Some (plan_revisions p) |}.

(** The check of [main], on a configuration. *)
Definition accepted (c : config) : bool :=
  truthy (source_branch c) && truthy (target_branch c)
  && truthy (working_dir c) && truthy_list (get_revisions c).

(** The commands a plan makes the scripts run. *)
Definition switch_cmd (p : plan) : invocation :=
  Invocation ["svn"; "switch"; plan_target p] (Some (plan_dir p)).

Definition update_cmd (p : plan) : invocation :=
  Invocation ["svn"; "update"; "--set-depth"; "infinity"] (Some (plan_dir p)).

Definition revert_cmd (p : plan) : invocation :=
  Invocation ["svn"; "revert"; "-R"; "."] (Some (plan_dir p)).

Definition merge_cmd (p : plan) (r : revision) : invocation :=
  Invocation
    ["svn"; "merge"; "-c"; str_revision r; plan_source p; "--accept";
     "theirs-full"]
    (Some (plan_dir p)).

Definition tortoise_cmd (p : plan) : invocation :=
  Invocation
    ["TortoiseProc.exe"; "/command:resolve"; ("/path:" ++ plan_dir p)%string]
    None.

(** What [run_command] makes of a stream: read as text, then stripped. *)
Definition captured (s : string) : string := strip (universal_newlines s).

(** What [run_command] makes of the answer of the process: the stripped
    output, or the exception it lets out. *)
Definition command_error (command : list string) (o : outcome) : exn :=
  match o with
  | Exited rc out err =>
      RuntimeError
        (SVNMerge.error_message command rc (captured out) (captured err))
  | NotFound => FileNotFoundError
  | CannotStart => OSError
  end.

Definition command_result (command : list string) (o : outcome)
    : result string :=
  match o with
  | Exited rc out _ =>
      if (rc =? 0)%Z then Return (captured out)
      else Raise (command_error command o)
  | _ => Raise (command_error command o)
  end.

(** ** The state machine of the executor

    The traces of the two scripts on a valid plan, read off their code:
    switch, update, one step per revision, and the way out through the
    rollback.  A run is described by its trace and by how [main] ends.
    Nothing is assumed of these relations: [run_conforms] below proves
    that every run of [main] is one of them, and the properties are then
    proved of [main] through them. *)

Inductive variant : Type := Strict | Interactive.

(** The separator of the two lines that announce a rollback. *)
Definition banner_sep (v : variant) : separator :=
  match v with
  | Strict => LineFeed
  | Interactive => Space
  end.

(** The lines that announce a rollback from a handler of [main]. *)
Definition is_banner (m : message) : bool :=
  match m with
  | MsgMergeFailed _ _ _ | MsgErrorOccurred _ _ => true
  | _ => false
  end.

(** The lines [svn_resolve_with_tortoise] prints when the tool fails. *)
Definition is_tool_notice (m : message) : bool :=
  match m with
  | MsgTortoiseNotFound | MsgTortoiseError _ => true
  | _ => false
  end.

Section Machine.

Variable p : plan.

(** Rolling back under [n] enclosing handlers for [Exception]: the revert
    is run, and the process exits with status one; when the revert itself
    fails, its error reaches the next handler, which rolls back again, and
    leaves [main] when no handler is left. *)
Inductive rollback : nat -> trace -> result unit -> Prop :=
| rollback_exit n oc :
    succeeded oc = true ->
    rollback n
      [Print MsgRevertingWorkingDir; Call (revert_cmd p) oc]
      (Raise (SystemExit 1))
| rollback_uncaught oc e :
    succeeded oc = false ->
    is_Exception e = true ->
    rollback 0
      [Print MsgRevertingWorkingDir; Call (revert_cmd p) oc]
      (Raise e)
| rollback_again n oc banner rho res :
    succeeded oc = false ->
    is_banner banner = true ->
    rollback n rho res ->
    rollback (S n)
      (Print MsgRevertingWorkingDir :: Call (revert_cmd p) oc ::
       Print banner :: Print MsgReverting :: rho)
      res.

(** The loop over the revisions that are left, up to the end of [main]. *)
Inductive loop_shape (v : variant)
    : list revision -> trace -> result unit -> Prop :=
| loop_done :
    loop_shape v [] [Print MsgAllProcessed] (Return tt)
| loop_merged r rs oc delta res :
    succeeded oc = true ->
    loop_shape v rs delta res ->
    loop_shape v (r :: rs)
      (Print (MsgMerging (str_revision r) (plan_source p)) ::
       Call (merge_cmd p r) oc ::
       Print (MsgMerged (str_revision r)) :: delta)
      res
| loop_failed r rs oc e rho res :
    succeeded oc = false ->
    (v = Interactive -> exited_nonzero oc = false) ->
    rollback 1 rho res ->
    loop_shape v (r :: rs)
      (Print (MsgMerging (str_revision r) (plan_source p)) ::
       Call (merge_cmd p r) oc ::
       Print (MsgMergeFailed (banner_sep v) (str_revision r) e) ::
       Print MsgReverting :: rho)
      res
| loop_resolved r rs oc e oc' delta res :
    v = Interactive ->
    exited_nonzero oc = true ->
    succeeded oc' = true ->
    loop_shape v rs delta res ->
    loop_shape v (r :: rs)
      (Print (MsgMerging (str_revision r) (plan_source p)) ::
       Call (merge_cmd p r) oc ::
       Print (MsgConflict (str_revision r) e) ::
       Print MsgLaunchingResolution :: Print MsgLaunchingTortoise ::
       Call (tortoise_cmd p) oc' ::
       Print MsgPleaseResolve ::
       Print (MsgMerged (str_revision r)) :: delta)
      res
| loop_tool_failed r rs oc e oc' notice rho res :
    v = Interactive ->
    exited_nonzero oc = true ->
    tool_failed oc' = true ->
    is_tool_notice notice = true ->
    rollback 2 rho res ->
    loop_shape v (r :: rs)
      (Print (MsgMerging (str_revision r) (plan_source p)) ::
       Call (merge_cmd p r) oc ::
       Print (MsgConflict (str_revision r) e) ::
       Print MsgLaunchingResolution :: Print MsgLaunchingTortoise ::
       Call (tortoise_cmd p) oc' ::
       Print notice :: rho)
      res
| loop_tool_cannot_start r rs oc e e' rho res :
    v = Interactive ->
    exited_nonzero oc = true ->
    rollback 1 rho res ->
    loop_shape v (r :: rs)
      (Print (MsgMerging (str_revision r) (plan_source p)) ::
       Call (merge_cmd p r) oc ::
       Print (MsgConflict (str_revision r) e) ::
       Print MsgLaunchingResolution :: Print MsgLaunchingTortoise ::
       Call (tortoise_cmd p) CannotStart ::
       Print (MsgMergeFailed (banner_sep v) (str_revision r) e') ::
       Print MsgReverting :: rho)
      res.

(** A whole run on the plan. *)
Inductive run_shape (v : variant) : trace -> result unit -> Prop :=
| run_switch_failed oc e rho res :
    succeeded oc = false ->
    rollback 0 rho res ->
    run_shape v
      (Print (MsgSwitching (plan_target p)) :: Call (switch_cmd p) oc ::
       Print (MsgErrorOccurred (banner_sep v) e) :: Print MsgReverting :: rho)
      res
| run_update_failed oc oc' e rho res :
    succeeded oc = true ->
    succeeded oc' = false ->
    rollback 0 rho res ->
    run_shape v
      (Print (MsgSwitching (plan_target p)) :: Call (switch_cmd p) oc ::
       Print MsgUpdating :: Call (update_cmd p) oc' ::
       Print (MsgErrorOccurred (banner_sep v) e) :: Print MsgReverting :: rho)
      res
| run_loop oc oc' delta res :
    succeeded oc = true ->
    succeeded oc' = true ->
    loop_shape v (plan_revisions p) delta res ->
    run_shape v
      (Print (MsgSwitching (plan_target p)) :: Call (switch_cmd p) oc ::
       Print MsgUpdating :: Call (update_cmd p) oc' :: delta)
      res.

End Machine.

(** The part of [main] that is left once the revisions [revs] remain:
    the rest of the body of the outer [try], under its handler. *)
Definition strict_rest (p : plan) (revs : list revision) : M unit :=
  try_except
    (for_each revs (SVNMerge.merge_step (plan_source p) (plan_dir p)) ;;
     print MsgAllProcessed)
    (fun e =>
       if is_Exception e
       then Some (print (MsgErrorOccurred LineFeed e) ;;
                  print MsgReverting ;;
                  SVNMerge.svn_revert (plan_dir p) ;;
                  sys_exit 1)
       else None).

Definition interactive_rest (p : plan) (revs : list revision) : M unit :=
  try_except
    (for_each revs
       (SVMMergeWithTortoise.merge_step (plan_source p) (plan_dir p)) ;;
     print MsgAllProcessed)
    (fun e =>
       if is_Exception e
       then Some (print (MsgErrorOccurred Space e) ;;
                  print MsgReverting ;;
                  SVMMergeWithTortoise.existWithError (plan_dir p))
       else None).

(** ** Summaries used by the proofs *)

(** What the wrappers of [run_command] make of the answer. *)
Definition vcs_result (cmd : list string) (oc : outcome) : result unit :=
  if succeeded oc then Return tt else Raise (command_error cmd oc).

(** Reverting and leaving, as the handlers of both scripts do. *)
Definition revert_exit (p : plan) : M unit :=
  SVMMergeWithTortoise.existWithError (plan_dir p).

(** How reverting and leaving ends. *)
Definition rolled_back (oc : outcome) : result unit :=
  if succeeded oc then Raise (SystemExit 1)
  else Raise (command_error ["svn"; "revert"; "-R"; "."] oc).

(** A handler of [main]: it announces the rollback and rolls back. *)
Definition handler (p : plan) (banner : message) : M unit :=
  print banner ;; print MsgReverting ;; revert_exit p.

(** An [except Exception] clause with that handler, applied to what the
    guarded statements gave. *)
Definition caught (p : plan) (banner : exn -> message) (o : oracle)
    (x : result unit * trace) : result unit * trace :=
  match x with
  | (Raise e, t') => if is_Exception e then handler p (banner e) o t' else x
  | _ => x
  end.

(** The loop after a step: it goes on when the step returned, and the
    handler around the loop catches what the step raised. *)
Definition step_then (p : plan) (sep : separator) (o : oracle)
    (k : trace -> result unit * trace) (x : result unit * trace)
    : result unit * trace :=
  match x with
  | (Return _, t') => k t'
  | (Raise e, t') => caught p (MsgErrorOccurred sep) o (Raise e, t')
  end.

(** The reverts a rollback under [n] enclosing handlers starts: one, and
    one more from the next handler each time the last one failed. *)
Fixpoint revert_chain (p : plan) (l : list call) (n : nat) {struct l} : Prop :=
  match l with
  | [] => False
  | (c, oc) :: rest =>
      c = revert_cmd p /\
      if succeeded oc then rest = []
      else match n with
           | 0 => rest = []
           | S n' => revert_chain p rest n'
           end
  end.

(** ** Runs of the scripts *)

(** A run of one of the two scripts, from the empty trace: what [main]
    gives and the trace it leaves. *)
Definition run (v : variant) (config_file : string) (disk : file_state)
    (o : oracle) : result unit * trace :=
  match v with
  | Strict => SVNMerge.main config_file disk o []
  | Interactive => SVMMergeWithTortoise.main config_file disk o []
  end.

(** The exit status of the process after a run. *)
Definition status (x : result unit * trace) : Z := exit_status (fst x).

(** A field of the configuration that is absent, or empty. *)
Definition missing (x : option string) : Prop := x = None \/ x = Some "".

(** A configuration that lacks one of the three strings, or whose list of
    revisions is absent or empty. *)
Definition incomplete (c : config) : Prop :=
  missing (source_branch c) \/ missing (target_branch c) \/
  missing (working_dir c) \/ revisions c = None \/ revisions c = Some [].

(** The configuration stage fails: no file, no file that can be read,
    no JSON, no object, or a configuration that the check of [main]
    refuses. *)
Definition validation_failed (disk : file_state) : Prop :=
  match disk with
  | Absent | Unreadable | Undecodable | Unparsable _ | NotAnObject => True
  | Holds c => accepted c = false
  end.

(** Full success: the configuration was accepted and every revision of
    its list was reported as merged, in order. *)
Definition applied_all (disk : file_state) (t : trace) : Prop :=
  exists c, disk = Holds c /\ accepted c = true /\
            merged t = map str_revision (get_revisions c).

(** ** The plan and the environments of the examples *)

Definition feature_plan : plan :=
  {| plan_source := "/branches/feature"; plan_target := "/trunk";
     plan_dir := "/wc"; plan_revisions := [RevInt 42; RevInt 43] |}.

Definition unsorted_plan : plan :=
  {| plan_source := "/branches/feature"; plan_target := "/trunk";
     plan_dir := "/wc";
     plan_revisions := [RevInt 105; RevInt 101; RevInt 103; RevInt 101] |}.

Definition done : outcome := Exited 0 "" "".
Definition conflict : outcome := Exited 1 "" "Tree conflict".

(** Every process succeeds. *)
Definition all_done : oracle := fun _ => done.

(** Every process exits with the code one. *)
Definition nothing_works : oracle := fun _ => conflict.

(** The fourth process, the merge of the second revision, fails. *)
Definition second_merge_fails : oracle :=
  fun n => match n with 3 => conflict | _ => done end.

(** The fourth process fails, and so does the fifth, which is the revert
    in the strict script and the interactive tool in the other. *)
Definition second_merge_and_next_fail : oracle :=
  fun n => match n with 3 | 4 => conflict | _ => done end.

(** The fourth process fails, and the interactive tool is not installed. *)
Definition second_merge_fails_no_tool : oracle :=
  fun n => match n with 3 => conflict | 4 => NotFound | _ => done end.

(** What the exit status of a run tells, for the run [x] of variant [v]
    on the configuration file [disk]. *)
Definition status_reading (v : variant) (disk : file_state)
    (x : result unit * trace) : Prop :=
  (status x = 0%Z \/ status x = 1%Z) /\
  (status x = 0%Z <-> applied_all disk (snd x)) /\
  (validation_failed disk -> status x = 1%Z) /\
  (reverts (snd x) <> [] -> status x = 1%Z) /\
  (forall c oc,
     In (c, oc) (calls (snd x)) ->
     succeeded oc = false ->
     status x = 1%Z \/
     (v = Interactive /\ is_merge c = true /\ exited_nonzero oc = true)).

(** The state [Applying] of the executor of the specification, read on
    the environment of the interactive script: the rank of the process
    that merges the revision of index [k], when the switch and the update
    succeed and each merge before that one either succeeds, or exits with
    a code other than zero and is followed by a run of the interactive
    tool that exits with zero. *)
Fixpoint applying (o : oracle) (k : nat) : option nat :=
  match k with
  | 0 => if succeeded (o 0) && succeeded (o 1) then Some 2 else None
  | S k' =>
      match applying o k' with
      | Some n =>
          if succeeded (o n) then Some (S n)
          else if exited_nonzero (o n) && succeeded (o (S n))
               then Some (S (S n))
               else None
      | None => None
      end
  end.

(** A trace records what the oracle answered: the process of rank [i] got
    the answer [o i]. *)
Definition answers (o : oracle) (t : trace) : Prop :=
  forall i c oc, nth_error (calls t) i = Some (c, oc) -> oc = o i.

(** A computation that keeps it so. *)
Definition keeps {A} (m : M A) : Prop :=
  forall o t, answers o t -> answers o (snd (m o t)).

(** ** Further observations of a run *)

(** Whether every revert of a list of calls comes right after a process
    that failed; [failed] tells whether the process before the list
    did. *)
Fixpoint follows_failure (failed : bool) (l : list call) : bool :=
  match l with
  | [] => true
  | (c, oc) :: l' =>
      (if is_revert c then failed else true)
      && follows_failure (negb (succeeded oc)) l'
  end.

(** The revision a merge command names: the word after [-c]. *)
Definition revision_of (c : call) : string := nth 3 (argv (fst c)) "".

(** The line a function prints before it starts a process. *)
Definition announces (m : message) (i : invocation) : bool :=
  match m with
  | MsgSwitching _ => is_switch i
  | MsgUpdating => is_update i
  | MsgMerging _ _ => is_merge i
  | MsgRevertingWorkingDir => is_revert i
  | MsgLaunchingTortoise =>
      match argv i with
      | program :: _ => (program =? "TortoiseProc.exe")%string
      | [] => false
      end
  | _ => false
  end.

(** Whether every process of a trace comes right after the line that
    announces it. *)
Fixpoint announced (t : trace) : bool :=
  match t with
  | [] => true
  | Call _ _ :: _ => false
  | Print m :: t' =>
      match t' with
      | Call i _ :: t'' => announces m i && announced t''
      | _ => announced t'
      end
  end.

(** A trace that begins with a line. *)
Definition begins_with_line (t : trace) : bool :=
  match t with
  | Print _ :: _ => true
  | _ => false
  end.

(** The line the interactive script prints where the strict one prints
    [m]: the same, with a space for the separator of a banner. *)
Definition respaced (m : message) : message :=
  match m with
  | MsgMergeFailed _ r e => MsgMergeFailed Space r e
  | MsgErrorOccurred _ e => MsgErrorOccurred Space e
  | _ => m
  end.

Definition respaced_trace (t : trace) : trace :=
  map (fun ev => match ev with
                 | Print m => Print (respaced m)
                 | Call i oc => Call i oc
                 end) t.

(** A run with its lines respaced: the same outcome, the same processes. *)
Definition respaced_run (x : result unit * trace) : result unit * trace :=
  (fst x, respaced_trace (snd x)).

(** The most reverts a script can start in one run. *)
Definition most_reverts (v : variant) : nat :=
  match v with
  | Strict => 2
  | Interactive => 3
  end.

(** The fourth process fails and so does every one after it. *)
Definition fails_from_second_merge : oracle :=
  fun n => if (n <? 3)%nat then done else conflict.

(** The merge of the second revision cannot be started. *)
Definition second_merge_cannot_start : oracle :=
  fun n => match n with 3 => NotFound | _ => done end.

(** The merge of the second revision fails and the tool cannot be
    started, for a reason other than not being found. *)
Definition second_merge_fails_tool_cannot_start : oracle :=
  fun n => match n with 3 => conflict | 4 => CannotStart | _ => done end.

(** ** Proofs *)

(** *** Lists and traces *)

Lemma calls_app t1 t2 : calls (t1 ++ t2) = (calls t1 ++ calls t2).
Proof.
  induction t1 as [|[m|i o] t1 IH]; simpl; [reflexivity|exact IH|now rewrite IH].
Qed.

Lemma calls_print t m : calls (t ++ [Print m]) = calls t.
Proof. rewrite calls_app; simpl; apply app_nil_r. Qed.

Lemma filter_all {A} (f : A -> bool) l :
  Forall (fun x => f x = true) l -> filter f l = l.
Proof.
  induction 1; simpl; [reflexivity|]. rewrite H. now f_equal.
Qed.

Lemma filter_none {A} (f : A -> bool) l :
  Forall (fun x => f x = false) l -> filter f l = [].
Proof.
  induction 1; simpl; [reflexivity|]. now rewrite H.
Qed.

(** *** The functions of the scripts, on any oracle and trace *)

Lemma bind_eq {A B} (m : M A) (k : A -> M B) o t :
  bind m k o t =
  match m o t with
  | (Return a, t') => k a o t'
  | (Raise e, t') => (Raise e, t')
  end.
Proof. reflexivity. Qed.

Lemma run_command_eq cmd cwd o t :
  SVNMerge.run_command cmd cwd o t =
  (command_result cmd (o (length (calls t))),
   (t ++ [Call (Invocation cmd cwd) (o (length (calls t)))])).
Proof.
  cbv [SVNMerge.run_command try_except bind subprocess_run spawn].
  destruct (o (length (calls t))) as [rc out err| |]; simpl; try reflexivity.
  destruct (rc =? 0)%Z; reflexivity.
Qed.

Lemma vcs_eq m cmd cwd o t :
  (print m ;; SVNMerge.run_command cmd cwd ;; ret tt) o t =
  (vcs_result cmd (o (length (calls t))),
   (t ++ [Print m; Call (Invocation cmd cwd) (o (length (calls t)))])).
Proof.
  cbv [bind print]. rewrite run_command_eq.
  rewrite calls_print. unfold vcs_result, command_result.
  rewrite <- app_assoc. simpl.
  destruct (o (length (calls t))) as [rc out err| |]; simpl; try reflexivity.
  destruct (rc =? 0)%Z; reflexivity.
Qed.

Lemma command_error_is_Exception cmd oc : is_Exception (command_error cmd oc) = true.
Proof. destruct oc; reflexivity. Qed.

Lemma svn_switch_eq p o t :
  SVNMerge.svn_switch (plan_target p) (plan_dir p) o t =
  (vcs_result ["svn"; "switch"; plan_target p] (o (length (calls t))),
   t ++ [Print (MsgSwitching (plan_target p)); Call (switch_cmd p) (o (length (calls t)))]).
Proof. apply vcs_eq. Qed.

Lemma svn_update_eq p o t :
  SVNMerge.svn_update (plan_dir p) o t =
  (vcs_result ["svn"; "update"; "--set-depth"; "infinity"] (o (length (calls t))),
   t ++ [Print MsgUpdating; Call (update_cmd p) (o (length (calls t)))]).
Proof. apply vcs_eq. Qed.

Lemma svn_revert_eq p o t :
  SVNMerge.svn_revert (plan_dir p) o t =
  (vcs_result ["svn"; "revert"; "-R"; "."] (o (length (calls t))),
   t ++ [Print MsgRevertingWorkingDir; Call (revert_cmd p) (o (length (calls t)))]).
Proof. apply vcs_eq. Qed.

Lemma strict_svn_merge_eq p r o t :
  SVNMerge.svn_merge (str_revision r) (plan_source p) (plan_dir p) o t =
  (vcs_result (argv (merge_cmd p r)) (o (length (calls t))),
   t ++ [Print (MsgMerging (str_revision r) (plan_source p));
         Call (merge_cmd p r) (o (length (calls t)))]).
Proof. apply vcs_eq. Qed.

Lemma revert_exit_eq p o t :
  revert_exit p o t =
  (rolled_back (o (length (calls t))),
   t ++ [Print MsgRevertingWorkingDir;
         Call (revert_cmd p) (o (length (calls t)))]).
Proof.
  cbv [revert_exit SVMMergeWithTortoise.existWithError bind].
  change SVMMergeWithTortoise.svn_revert with SVNMerge.svn_revert.
  rewrite svn_revert_eq.
  unfold vcs_result, rolled_back.
  destruct (succeeded _); reflexivity.
Qed.

Lemma handler_eq p b o t :
  handler p b o t = revert_exit p o (t ++ [Print b; Print MsgReverting]).
Proof. cbv [handler bind print]. now rewrite <- app_assoc. Qed.

Lemma rolled_back_cases oc :
  (succeeded oc = true /\ rolled_back oc = Raise (SystemExit 1)) \/
  (succeeded oc = false /\
   exists e, rolled_back oc = Raise e /\ is_Exception e = true).
Proof.
  unfold rolled_back. destruct (succeeded oc); [left|right]; split; auto.
  eexists; split; [reflexivity|apply command_error_is_Exception].
Qed.

Lemma resolve_eq p o t :
  SVMMergeWithTortoise.svn_resolve_with_tortoise (plan_dir p) o t =
  match o (length (calls t)) with
  | Exited rc out err =>
      if (rc =? 0)%Z
      then (Return tt,
            t ++ [Print MsgLaunchingTortoise;
                  Call (tortoise_cmd p) (Exited rc out err);
                  Print MsgPleaseResolve])
      else revert_exit p o
             (t ++ [Print MsgLaunchingTortoise;
                    Call (tortoise_cmd p) (Exited rc out err);
                    Print (MsgTortoiseError
                             (CalledProcessError rc (argv (tortoise_cmd p))
                                None None))])
  | NotFound =>
      revert_exit p o
        (t ++ [Print MsgLaunchingTortoise; Call (tortoise_cmd p) NotFound;
               Print MsgTortoiseNotFound])
  | CannotStart =>
      (Raise OSError,
       t ++ [Print MsgLaunchingTortoise; Call (tortoise_cmd p) CannotStart])
  end.
Proof.
  cbv [SVMMergeWithTortoise.svn_resolve_with_tortoise try_except bind
       subprocess_run spawn print].
  rewrite calls_print.
  destruct (o (length (calls t))) as [rc out err| |]; simpl.
  - destruct (rc =? 0)%Z; simpl; rewrite <- !app_assoc; reflexivity.
  - rewrite <- !app_assoc; reflexivity.
  - rewrite <- !app_assoc; reflexivity.
Qed.

Lemma interactive_svn_merge_eq p r o t :
  SVMMergeWithTortoise.svn_merge (str_revision r) (plan_source p) (plan_dir p)
    o t =
  if succeeded (o (length (calls t)))
  then (Return tt,
        t ++ [Print (MsgMerging (str_revision r) (plan_source p));
              Call (merge_cmd p r) (o (length (calls t)))])
  else if exited_nonzero (o (length (calls t)))
  then SVMMergeWithTortoise.svn_resolve_with_tortoise (plan_dir p) o
         (t ++ [Print (MsgMerging (str_revision r) (plan_source p));
                Call (merge_cmd p r) (o (length (calls t)));
                Print (MsgConflict (str_revision r)
                         (command_error (argv (merge_cmd p r))
                            (o (length (calls t)))));
                Print MsgLaunchingResolution])
  else (Raise (command_error (argv (merge_cmd p r)) (o (length (calls t)))),
        t ++ [Print (MsgMerging (str_revision r) (plan_source p));
              Call (merge_cmd p r) (o (length (calls t)))]).
Proof.
  cbv [SVMMergeWithTortoise.svn_merge try_except bind print].
  change SVMMergeWithTortoise.run_command with SVNMerge.run_command.
  rewrite run_command_eq, calls_print.
  destruct (o (length (calls t))) as [rc out err| |]; simpl.
  - destruct (rc =? 0)%Z; simpl; rewrite <- !app_assoc; reflexivity.
  - rewrite <- !app_assoc; reflexivity.
  - rewrite <- !app_assoc; reflexivity.
Qed.

(** *** Rollbacks *)

Create HintDb machine.
#[local] Hint Constructors rollback loop_shape run_shape : machine.

Lemma rollback_raises p n rho res :
  rollback p n rho res -> exists e, res = Raise e.
Proof. induction 1; eauto. Qed.

Lemma exit_status_Exception (e : exn) :
  is_Exception e = true -> exit_status (A:=unit) (Raise e) = 1%Z.
Proof. destruct e; simpl; congruence. Qed.

(** A rollback ends the run with status one, reports no merge, and only
    starts reverts. *)
Lemma rollback_status p n rho res :
  rollback p n rho res -> exit_status res = 1%Z.
Proof.
  induction 1; auto using exit_status_Exception.
Qed.

#[local] Hint Resolve rollback_status : machine.

Lemma banner_error sep e : is_banner (MsgErrorOccurred sep e) = true.
Proof. reflexivity. Qed.

Lemma banner_failed sep r e : is_banner (MsgMergeFailed sep r e) = true.
Proof. reflexivity. Qed.

Lemma banner_not_merged b t :
  is_banner b = true -> merged (Print b :: t) = merged t.
Proof. destruct b; simpl; congruence. Qed.

Lemma rollback_merged p n rho res : rollback p n rho res -> merged rho = [].
Proof.
  induction 1; try reflexivity.
  change (merged (Print banner :: Print MsgReverting :: rho) = []).
  rewrite banner_not_merged by assumption. exact IHrollback.
Qed.

Lemma rollback_chain p n rho res :
  rollback p n rho res -> revert_chain p (calls rho) n.
Proof.
  induction 1; simpl.
  - rewrite H. auto.
  - rewrite H. auto.
  - rewrite H. auto.
Qed.

Lemma rollback_exit_code p n rho res oc rest :
  rollback p n rho res ->
  calls rho = (revert_cmd p, oc) :: rest ->
  succeeded oc = true ->
  res = Raise (SystemExit 1).
Proof.
  destruct 1; simpl; intros Hc Hs; injection Hc as <- _; congruence.
Qed.

Lemma revert_chain_all p l : forall n,
  revert_chain p l n -> l <> [] /\ Forall (fun c => fst c = revert_cmd p) l.
Proof.
  induction l as [|[c oc] l IH]; intros n; simpl; [tauto|].
  intros [-> H]. split; [discriminate|]. constructor; [reflexivity|].
  destruct (succeeded oc); [subst; constructor|].
  destruct n; [subst; constructor|]. apply (IH n H).
Qed.

Lemma rollback_reverts p n rho res :
  rollback p n rho res ->
  filter (fun c => is_revert (fst c)) (calls rho) = calls rho.
Proof.
  intros H. apply filter_all.
  destruct (revert_chain_all _ _ _ (rollback_chain _ _ _ _ H)) as [_ F].
  revert F. apply Forall_impl. intros [c oc]; simpl. now intros ->.
Qed.

Lemma reverts_rollback p n rho res :
  rollback p n rho res -> reverts rho = calls rho.
Proof. apply rollback_reverts. Qed.

Lemma rollback_no_merge p n rho res :
  rollback p n rho res ->
  filter (fun c => is_merge (fst c)) (calls rho) = [].
Proof.
  intros H. apply filter_none.
  destruct (revert_chain_all _ _ _ (rollback_chain _ _ _ _ H)) as [_ F].
  revert F. apply Forall_impl. intros [c oc]; simpl. now intros ->.
Qed.

Lemma merges_rollback p n rho res : rollback p n rho res -> merges rho = [].
Proof. apply rollback_no_merge. Qed.

Lemma rollback_calls_revert p n rho res c oc :
  rollback p n rho res -> In (c, oc) (calls rho) -> c = revert_cmd p.
Proof.
  intros R Hin.
  destruct (revert_chain_all _ _ _ (rollback_chain _ _ _ _ R)) as [_ F].
  rewrite Forall_forall in F. exact (F _ Hin).
Qed.

Lemma rollback_nth_revert p n rho res k c oc :
  rollback p n rho res ->
  nth_error (calls rho) k = Some (c, oc) -> is_revert c = true.
Proof.
  intros R H. apply nth_error_In in H.
  now rewrite (rollback_calls_revert _ _ _ _ _ _ R H).
Qed.

Lemma rollback_last p rho res :
  rollback p 0 rho res -> exists oc, calls rho = [(revert_cmd p, oc)].
Proof.
  intros R. pose proof (rollback_chain _ _ _ _ R) as C.
  destruct (calls rho) as [|[c oc] rest]; simpl in C; [tauto|].
  destruct C as [-> C]. exists oc.
  destruct (succeeded oc); now subst.
Qed.

Lemma rollback_once_or_twice p rho res :
  rollback p 1 rho res ->
  exists oc1,
    (succeeded oc1 = true /\ calls rho = [(revert_cmd p, oc1)]) \/
    (succeeded oc1 = false /\
     exists oc2, calls rho = [(revert_cmd p, oc1); (revert_cmd p, oc2)]).
Proof.
  intros R. pose proof (rollback_chain _ _ _ _ R) as C.
  destruct (calls rho) as [|[c oc] rest]; simpl in C; [tauto|].
  destruct C as [-> C]. exists oc.
  destruct (succeeded oc); [left; now subst|right].
  split; [reflexivity|].
  destruct rest as [|[c2 oc2] rest]; simpl in C; [tauto|].
  destruct C as [-> C]. exists oc2.
  destruct (succeeded oc2); now subst.
Qed.

(** The first revert of a rollback; when it succeeds it is the only one
    and [SystemExit] leaves [main]. *)
Lemma rollback_first p n rho res :
  rollback p n rho res ->
  exists oc1 rest,
    calls rho = (revert_cmd p, oc1) :: rest /\
    (succeeded oc1 = true -> rest = [] /\ res = Raise (SystemExit 1)).
Proof.
  intros R. pose proof (rollback_chain _ _ _ _ R) as C.
  destruct (calls rho) as [|[c oc] rest] eqn:E; simpl in C; [tauto|].
  destruct C as [-> C]. exists oc, rest. split; [reflexivity|].
  intros S1. rewrite S1 in C. split; [exact C|].
  exact (rollback_exit_code _ _ _ _ _ _ R E S1).
Qed.

(** *** Rollbacks through the handlers of main *)

Lemma step_then_raised p sep o k x n rho :
  rollback p n rho (fst x) ->
  step_then p sep o k x = caught p (MsgErrorOccurred sep) o x.
Proof.
  intros H. destruct (rollback_raises _ _ _ _ H) as (e & He).
  destruct x as [[|] ?]; simpl in He; [discriminate|reflexivity].
Qed.

Lemma bind_when_raised (x : result unit * trace) (k : M unit) o n p rho :
  rollback p n rho (fst x) ->
  match x with
  | (Return _, t') => k o t'
  | (Raise e, t') => (Raise e, t')
  end = x.
Proof.
  intros H. destruct (rollback_raises _ _ _ _ H) as (e & He).
  destruct x as [[|] ?]; simpl in He; [discriminate|reflexivity].
Qed.

(** Reverting from the last handler. *)
Lemma revert_exit_rollback p o t :
  exists rho,
    snd (revert_exit p o t) = t ++ rho /\
    rollback p 0 rho (fst (revert_exit p o t)).
Proof.
  rewrite revert_exit_eq. eexists; split; [reflexivity|]. simpl.
  destruct (rolled_back_cases (o (length (calls t))))
    as [[E ->]|[E (e & -> & He)]].
  - auto with machine.
  - auto with machine.
Qed.

(** One more handler around a rollback. *)
Lemma caught_rollback p banner o n rho res :
  (forall e, is_banner (banner e) = true) ->
  rollback p n rho res ->
  forall t, exists rho',
    snd (caught p banner o (res, t ++ rho)) = t ++ rho' /\
    rollback p (S n) rho' (fst (caught p banner o (res, t ++ rho))).
Proof.
  intros Hb H. induction H as [n oc E|oc e E He|n oc b rho res E Hbn H IH];
    intros t.
  - eexists; split; [reflexivity|]. now apply rollback_exit.
  - simpl. rewrite He, handler_eq.
    destruct (revert_exit_rollback p o
                ((t ++ [Print MsgRevertingWorkingDir; Call (revert_cmd p) oc]) ++
                 [Print (banner e); Print MsgReverting]))
      as (rho' & Ht & Hr).
    eexists; split.
    + rewrite Ht, <- !app_assoc. reflexivity.
    + simpl. apply rollback_again; auto.
  - destruct (IH (t ++ [Print MsgRevertingWorkingDir; Call (revert_cmd p) oc;
                        Print b; Print MsgReverting]))
      as (rho' & Ht & Hr).
    rewrite <- app_assoc in Ht, Hr. cbn [app] in Ht, Hr.
    eexists; split.
    + rewrite Ht, <- app_assoc. reflexivity.
    + simpl. apply rollback_again; auto.
Qed.

Lemma caught_rollback' p banner o n t rho x :
  (forall e, is_banner (banner e) = true) ->
  snd x = t ++ rho ->
  rollback p n rho (fst x) ->
  exists rho',
    snd (caught p banner o x) = t ++ rho' /\
    rollback p (S n) rho' (fst (caught p banner o x)).
Proof.
  intros Hb Ht Hr. destruct x as [res t']. simpl in Ht, Hr. subst t'.
  now apply caught_rollback.
Qed.

(** A handler that catches an exception rolls back, under the handlers
    around it. *)
Lemma handler_rollback p b o t :
  exists rho,
    snd (handler p b o t) = t ++ Print b :: Print MsgReverting :: rho /\
    rollback p 0 rho (fst (handler p b o t)).
Proof.
  rewrite handler_eq.
  destruct (revert_exit_rollback p o (t ++ [Print b; Print MsgReverting]))
    as (rho & Ht & Hr).
  exists rho; split; [|exact Hr].
  rewrite Ht, <- app_assoc. reflexivity.
Qed.

Lemma caught_handler_rollback p banner b o t :
  (forall e, is_banner (banner e) = true) ->
  exists rho,
    snd (caught p banner o (handler p b o t)) =
      t ++ Print b :: Print MsgReverting :: rho /\
    rollback p 1 rho (fst (caught p banner o (handler p b o t))).
Proof.
  intros Hb.
  destruct (handler_rollback p b o t) as (rho & Ht & Hr).
  assert (Ht0 : snd (handler p b o t) =
                (t ++ [Print b; Print MsgReverting]) ++ rho)
    by (rewrite Ht, <- app_assoc; reflexivity).
  destruct (caught_rollback' p banner o 0 _ rho _ Hb Ht0 Hr)
    as (rho' & Ht' & Hr').
  exists rho'; split; [|exact Hr'].
  rewrite Ht', <- app_assoc. reflexivity.
Qed.

(** A rollback that starts in the body of a step goes through the handler
    of the step and through the handler around the loop. *)
Lemma two_handlers p sep o n t rho x b1 k :
  (forall e, is_banner (b1 e) = true) ->
  snd x = t ++ rho ->
  rollback p n rho (fst x) ->
  exists rho',
    snd (step_then p sep o k (caught p b1 o x)) = t ++ rho' /\
    rollback p (S (S n)) rho' (fst (step_then p sep o k (caught p b1 o x))).
Proof.
  intros H1 Ht Hr.
  destruct (caught_rollback' p b1 o n t rho x H1 Ht Hr) as (rho1 & Ht1 & Hr1).
  rewrite (step_then_raised _ _ _ k _ _ _ Hr1).
  exact (caught_rollback' p _ o (S n) t rho1 _ (banner_error sep) Ht1 Hr1).
Qed.

(** An exception raised in the body of a step, outside any rollback. *)
Lemma raised_in_step p sep o t e b1 k :
  is_Exception e = true ->
  exists rho,
    snd (step_then p sep o k (caught p b1 o (Raise e, t))) =
      t ++ Print (b1 e) :: Print MsgReverting :: rho /\
    rollback p 1 rho
      (fst (step_then p sep o k (caught p b1 o (Raise e, t)))).
Proof.
  intros He.
  change (caught p b1 o (Raise e, t))
    with (if is_Exception e then handler p (b1 e) o t else (Raise e, t)).
  rewrite He.
  destruct (caught_handler_rollback p (MsgErrorOccurred sep) (b1 e) o t
              (banner_error sep))
    as (rho & Ht & Hr).
  destruct (handler_rollback p (b1 e) o t) as (rho0 & _ & Hr0).
  rewrite (step_then_raised _ _ _ k _ _ _ Hr0).
  exists rho; split; assumption.
Qed.

(** *** Every run is a run of the state machine *)

Lemma strict_rest_cons p r rs o t :
  strict_rest p (r :: rs) o t =
  step_then p LineFeed o (strict_rest p rs o)
    (SVNMerge.merge_step (plan_source p) (plan_dir p) r o t).
Proof.
  cbv [strict_rest try_except bind caught step_then]. simpl for_each. cbv [bind].
  destruct (SVNMerge.merge_step _ _ _ _ _) as [[[]|e] t']; try reflexivity.
  destruct (is_Exception e); reflexivity.
Qed.

Lemma strict_merge_step_eq p r o t :
  SVNMerge.merge_step (plan_source p) (plan_dir p) r o t =
  if succeeded (o (length (calls t)))
  then (Return tt,
        t ++ [Print (MsgMerging (str_revision r) (plan_source p));
              Call (merge_cmd p r) (o (length (calls t)));
              Print (MsgMerged (str_revision r))])
  else handler p
         (MsgMergeFailed LineFeed (str_revision r)
            (command_error (argv (merge_cmd p r)) (o (length (calls t)))))
         o
         (t ++ [Print (MsgMerging (str_revision r) (plan_source p));
                Call (merge_cmd p r) (o (length (calls t)))]).
Proof.
  cbv [SVNMerge.merge_step try_except bind]. rewrite strict_svn_merge_eq.
  unfold vcs_result. destruct (succeeded _).
  - cbv [print]. rewrite <- app_assoc. reflexivity.
  - rewrite command_error_is_Exception. reflexivity.
Qed.

Lemma strict_rest_shape p revs : forall o t,
  exists delta,
    snd (strict_rest p revs o t) = t ++ delta /\
    loop_shape p Strict revs delta (fst (strict_rest p revs o t)).
Proof.
  induction revs as [|r rs IH]; intros o t.
  - eexists; split; [reflexivity|constructor].
  - rewrite strict_rest_cons, strict_merge_step_eq.
    destruct (succeeded _) eqn:E.
    + unfold step_then.
      match goal with
      | |- context [strict_rest p rs o ?t'] =>
          destruct (IH o t') as (delta & Ht & Hs)
      end.
      eexists; split.
      * rewrite Ht, <- app_assoc. reflexivity.
      * cbn [app]. now apply loop_merged.
    + match goal with
      | |- context [handler p ?b o ?t'] =>
          destruct (caught_handler_rollback p (MsgErrorOccurred LineFeed) b o t'
                      (banner_error LineFeed)) as (rho & Ht & Hr);
          destruct (handler_rollback p b o t') as (rho0 & _ & Hr0);
          rewrite (step_then_raised _ _ _ (strict_rest p rs o) _ _ _ Hr0)
      end.
      eexists; split.
      * rewrite Ht, <- app_assoc. reflexivity.
      * cbn [app]. apply loop_failed; [exact E|discriminate|exact Hr].
Qed.

Lemma interactive_merge_step_eq p r o t :
  SVMMergeWithTortoise.merge_step (plan_source p) (plan_dir p) r o t =
  caught p (MsgMergeFailed Space (str_revision r)) o
    ((SVMMergeWithTortoise.svn_merge (str_revision r) (plan_source p)
        (plan_dir p) ;;
      print (MsgMerged (str_revision r))) o t).
Proof.
  cbv [SVMMergeWithTortoise.merge_step try_except caught].
  destruct (bind _ _ o t) as [[[]|e] t']; try reflexivity.
  destruct (is_Exception e); reflexivity.
Qed.

Lemma interactive_rest_cons p r rs o t :
  interactive_rest p (r :: rs) o t =
  step_then p Space o (interactive_rest p rs o)
    (SVMMergeWithTortoise.merge_step (plan_source p) (plan_dir p) r o t).
Proof.
  cbv [interactive_rest try_except bind caught step_then]. simpl for_each. cbv [bind].
  destruct (SVMMergeWithTortoise.merge_step _ _ _ _ _) as [[[]|e] t'];
    try reflexivity.
  destruct (is_Exception e); reflexivity.
Qed.

Lemma interactive_rest_shape p revs : forall o t,
  exists delta,
    snd (interactive_rest p revs o t) = t ++ delta /\
    loop_shape p Interactive revs delta (fst (interactive_rest p revs o t)).
Proof.
  induction revs as [|r rs IH]; intros o t.
  - eexists; split; [reflexivity|constructor].
  - rewrite interactive_rest_cons, interactive_merge_step_eq.
    rewrite bind_eq, interactive_svn_merge_eq.
    destruct (succeeded (o (length (calls t)))) eqn:E.
    { (* the merge succeeds *)
      cbv [print caught step_then]. rewrite <- app_assoc. cbn [app].
      match goal with
      | |- context [interactive_rest p rs o ?t'] =>
          destruct (IH o t') as (delta & Ht & Hs)
      end.
      eexists; split.
      - rewrite Ht, <- app_assoc. reflexivity.
      - now apply loop_merged. }
    destruct (exited_nonzero (o (length (calls t)))) eqn:N.
    2:{ (* the merge cannot be started *)
      match goal with
      | |- context [caught p ?b1 o (Raise ?e, ?t')] =>
          destruct (raised_in_step p Space o t' e b1 (interactive_rest p rs o)
                      (command_error_is_Exception _ _))
            as (rho & Ht & Hr)
      end.
      eexists; split.
      - rewrite Ht, <- app_assoc. reflexivity.
      - cbn [app]. apply loop_failed; [exact E|intros _; exact N|exact Hr]. }
    (* the merge reports a conflict: the tool is started *)
    rewrite resolve_eq.
    match goal with
    | |- context [match o ?n with Exited _ _ _ => _ | _ => _ end] =>
        destruct (o n) as [rc out err| |] eqn:T
    end.
    + destruct (rc =? 0)%Z eqn:Z.
      * (* the tool exits with zero *)
        cbv [print caught step_then]. rewrite <- !app_assoc. cbn [app].
        match goal with
        | |- context [interactive_rest p rs o ?t'] =>
            destruct (IH o t') as (delta & Ht & Hs)
        end.
        eexists; split.
        -- rewrite Ht, <- app_assoc. reflexivity.
        -- cbn [app]. apply loop_resolved; auto.
      * (* the tool exits with another code *)
        match goal with
        | |- context [revert_exit p o ?t'] =>
            destruct (revert_exit_rollback p o t') as (rho & Ht & Hr);
            rewrite (bind_when_raised (revert_exit p o t') _ o _ _ _ Hr);
            destruct (two_handlers p Space o 0 t' rho (revert_exit p o t')
                        (MsgMergeFailed Space (str_revision r))
                        (interactive_rest p rs o)
                        (banner_failed _ _) Ht Hr)
              as (rho' & Ht' & Hr')
        end.
        eexists; split.
        -- rewrite Ht', <- !app_assoc. reflexivity.
        -- cbn [app]. apply loop_tool_failed; auto. simpl. now rewrite Z.
    + (* the tool is not found *)
      match goal with
      | |- context [revert_exit p o ?t'] =>
          destruct (revert_exit_rollback p o t') as (rho & Ht & Hr);
          rewrite (bind_when_raised (revert_exit p o t') _ o _ _ _ Hr);
          destruct (two_handlers p Space o 0 t' rho (revert_exit p o t')
                      (MsgMergeFailed Space (str_revision r))
                      (interactive_rest p rs o)
                      (banner_failed _ _) Ht Hr)
            as (rho' & Ht' & Hr')
      end.
      eexists; split.
      * rewrite Ht', <- !app_assoc. reflexivity.
      * cbn [app]. apply loop_tool_failed; auto.
    + (* the tool cannot be started *)
      match goal with
      | |- context [caught p ?b1 o (Raise ?e, ?t')] =>
          destruct (raised_in_step p Space o t' e b1 (interactive_rest p rs o)
                      eq_refl)
            as (rho & Ht & Hr)
      end.
      eexists; split.
      * rewrite Ht, <- !app_assoc. reflexivity.
      * cbn [app]. apply loop_tool_cannot_start; auto.
Qed.

Lemma truthy_str_true s : s <> "" -> truthy_str s = true.
Proof. destruct s; [congruence|reflexivity]. Qed.

Lemma accepted_valid p : valid p -> accepted (config_of p) = true.
Proof.
  intros (Hs & Ht & Hd & Hr). unfold accepted, config_of, get_revisions; simpl.
  rewrite !truthy_str_true by assumption.
  destruct (plan_revisions p); [congruence|reflexivity].
Qed.

Lemma accepted_config_of p : accepted (config_of p) = true -> valid p.
Proof.
  destruct p as [s t w l]. unfold accepted, get_revisions, valid; simpl.
  destruct s, t, w, l; simpl; try discriminate; intros _;
    repeat split; discriminate.
Qed.

Lemma accepted_plan c :
  accepted c = true -> exists p, valid p /\ c = config_of p.
Proof.
  destruct c as [[s|] [t|] [w|] [l|]]; unfold accepted, get_revisions; simpl;
    try (rewrite ?andb_false_r; discriminate).
  intros H. exists (Plan s t w l). split; [|reflexivity].
  destruct s, t, w, l; simpl in H; try discriminate; repeat split; discriminate.
Qed.

Lemma incomplete_refused c : incomplete c -> accepted c = false.
Proof.
  unfold incomplete, missing, accepted, get_revisions.
  intros [[H|H]|[[H|H]|[[H|H]|[H|H]]]]; rewrite H; simpl;
    rewrite ?andb_false_r; reflexivity.
Qed.

Lemma feature_plan_valid : valid feature_plan.
Proof. repeat split; discriminate. Qed.

(** The outer [try] of [main]: the switch, the update, then the loop. *)
Lemma front_eq p sep (body : M unit) o t :
  try_except
    (SVNMerge.svn_switch (plan_target p) (plan_dir p) ;;
     SVNMerge.svn_update (plan_dir p) ;;
     body)
    (fun e =>
       if is_Exception e then Some (handler p (MsgErrorOccurred sep e))
       else None)
    o t =
  let oc := o (length (calls t)) in
  let t1 := t ++ [Print (MsgSwitching (plan_target p));
                  Call (switch_cmd p) oc] in
  if succeeded oc
  then
    let oc' := o (length (calls t1)) in
    let t2 := t1 ++ [Print MsgUpdating; Call (update_cmd p) oc'] in
    if succeeded oc'
    then try_except body
           (fun e =>
              if is_Exception e then Some (handler p (MsgErrorOccurred sep e))
              else None) o t2
    else handler p
           (MsgErrorOccurred sep
              (command_error ["svn"; "update"; "--set-depth"; "infinity"] oc'))
           o t2
  else handler p
         (MsgErrorOccurred sep
            (command_error ["svn"; "switch"; plan_target p] oc)) o t1.
Proof.
  cbv zeta. unfold try_except at 1. rewrite bind_eq, svn_switch_eq.
  unfold vcs_result. destruct (succeeded (o (length (calls t)))).
  - rewrite bind_eq, svn_update_eq. unfold vcs_result.
    destruct (succeeded _).
    + reflexivity.
    + now rewrite command_error_is_Exception.
  - now rewrite command_error_is_Exception.
Qed.

Lemma front_shape p v (rest : list revision -> M unit) o t :
  (forall o t, exists delta,
      snd (rest (plan_revisions p) o t) = t ++ delta /\
      loop_shape p v (plan_revisions p) delta
        (fst (rest (plan_revisions p) o t))) ->
  let x :=
    let oc := o (length (calls t)) in
    let t1 := t ++ [Print (MsgSwitching (plan_target p));
                    Call (switch_cmd p) oc] in
    if succeeded oc
    then
      let oc' := o (length (calls t1)) in
      let t2 := t1 ++ [Print MsgUpdating; Call (update_cmd p) oc'] in
      if succeeded oc'
      then rest (plan_revisions p) o t2
      else handler p
             (MsgErrorOccurred (banner_sep v)
                (command_error ["svn"; "update"; "--set-depth"; "infinity"]
                   oc'))
             o t2
    else handler p
           (MsgErrorOccurred (banner_sep v)
              (command_error ["svn"; "switch"; plan_target p] oc)) o t1 in
  exists delta, snd x = t ++ delta /\ run_shape p v delta (fst x).
Proof.
  intros Hrest. cbv zeta.
  destruct (succeeded (o (length (calls t)))) eqn:E.
  - destruct (succeeded (o (length (calls (t ++ _))))) eqn:E'.
    + match goal with
      | |- context [rest _ o ?t'] => destruct (Hrest o t') as (delta & Ht & Hs)
      end.
      eexists; split.
      * rewrite Ht, <- !app_assoc. reflexivity.
      * cbn [app]. now apply run_loop.
    + match goal with
      | |- context [handler p ?b o ?t'] =>
          destruct (handler_rollback p b o t') as (rho & Ht & Hr)
      end.
      eexists; split.
      * rewrite Ht, <- !app_assoc. reflexivity.
      * cbn [app]. now apply run_update_failed.
  - match goal with
    | |- context [handler p ?b o ?t'] =>
        destruct (handler_rollback p b o t') as (rho & Ht & Hr)
    end.
    eexists; split.
    + rewrite Ht, <- !app_assoc. reflexivity.
    + cbn [app]. now apply run_switch_failed.
Qed.

Lemma strict_main_eq p f o t :
  valid p ->
  SVNMerge.main f (Holds (config_of p)) o t =
  try_except
    (SVNMerge.svn_switch (plan_target p) (plan_dir p) ;;
     SVNMerge.svn_update (plan_dir p) ;;
     for_each (plan_revisions p)
       (SVNMerge.merge_step (plan_source p) (plan_dir p)) ;;
     print MsgAllProcessed)
    (fun e =>
       if is_Exception e then Some (handler p (MsgErrorOccurred LineFeed e))
       else None)
    o t.
Proof.
  intros V. unfold SVNMerge.main. rewrite bind_eq. simpl SVNMerge.load_config.
  cbv [ret]. rewrite bind_eq. cbv [get_fields ret]. fold (accepted (config_of p)). rewrite (accepted_valid p V).
  reflexivity.
Qed.

Lemma interactive_main_eq p f o t :
  valid p ->
  SVMMergeWithTortoise.main f (Holds (config_of p)) o t =
  try_except
    (SVNMerge.svn_switch (plan_target p) (plan_dir p) ;;
     SVNMerge.svn_update (plan_dir p) ;;
     for_each (plan_revisions p)
       (SVMMergeWithTortoise.merge_step (plan_source p) (plan_dir p)) ;;
     print MsgAllProcessed)
    (fun e =>
       if is_Exception e then Some (handler p (MsgErrorOccurred Space e))
       else None)
    o t.
Proof.
  intros V. unfold SVMMergeWithTortoise.main. rewrite bind_eq.
  simpl SVMMergeWithTortoise.load_config.
  cbv [ret]. rewrite bind_eq. cbv [get_fields ret]. fold (accepted (config_of p)). rewrite (accepted_valid p V).
  reflexivity.
Qed.

(** Every run of the strict script on a valid plan is a run of the state
    machine. *)
Lemma strict_conforms p f o :
  valid p ->
  run_shape p Strict
    (snd (SVNMerge.main f (Holds (config_of p)) o []))
    (fst (SVNMerge.main f (Holds (config_of p)) o [])).
Proof.
  intros V. rewrite (strict_main_eq p f o [] V), front_eq.
  destruct (front_shape p Strict (strict_rest p) o []
              (strict_rest_shape p (plan_revisions p)))
    as (delta & Ht & Hs).
  change ([] ++ delta) with delta in Ht. rewrite <- Ht in Hs. exact Hs.
Qed.

(** Every run of the interactive script on a valid plan is a run of the
    state machine. *)
Lemma interactive_conforms p f o :
  valid p ->
  run_shape p Interactive
    (snd (SVMMergeWithTortoise.main f (Holds (config_of p)) o []))
    (fst (SVMMergeWithTortoise.main f (Holds (config_of p)) o [])).
Proof.
  intros V. rewrite (interactive_main_eq p f o [] V), front_eq.
  destruct (front_shape p Interactive (interactive_rest p) o []
              (interactive_rest_shape p (plan_revisions p)))
    as (delta & Ht & Hs).
  change ([] ++ delta) with delta in Ht. rewrite <- Ht in Hs. exact Hs.
Qed.

(** Every run of either script on a valid plan is a run of the state
    machine. *)
Lemma run_conforms v p f o :
  valid p ->
  run_shape p v (snd (run v f (Holds (config_of p)) o))
    (fst (run v f (Holds (config_of p)) o)).
Proof.
  destruct v; [apply strict_conforms|apply interactive_conforms].
Qed.

(** A configuration that the check refuses stops both scripts at once. *)
Lemma run_refused v f c o :
  accepted c = false ->
  run v f (Holds c) o = (Raise (SystemExit 1), [Print MsgInvalidConfig]).
Proof.
  intros H.
  destruct v; unfold run, SVNMerge.main, SVMMergeWithTortoise.main;
    rewrite bind_eq; simpl SVNMerge.load_config;
    simpl SVMMergeWithTortoise.load_config; cbv [ret];
    rewrite bind_eq; cbv [get_fields ret]; fold (accepted c); rewrite H;
    reflexivity.
Qed.

Lemma run_not_loaded v f o disk :
  match disk with Holds _ => False | _ => True end ->
  status (run v f disk o) = 1%Z /\
  calls (snd (run v f disk o)) = [] /\ merged (snd (run v f disk o)) = [].
Proof.
  destruct v, disk; simpl; intros []; repeat split.
Qed.

(** *** Runs of the state machine *)

(** Induction on a run of the loop and case analysis on a whole run, with
    the names the proofs below use. *)
Ltac loop_induction L :=
  induction L as [|r rs oc delta res E H IH|r rs oc e rho res E N R
                  |r rs oc e oc' delta res V N E H IH
                  |r rs oc e oc' notice rho res V N T I R
                  |r rs oc e e' rho res V N R].

Ltac run_cases S :=
  destruct S as [sw e rho res E R|sw up e rho res E E' R
                 |sw up delta res E E' L].

(** Whether the call sought in [H : y :: l = pre ++ x :: post] is [y],
    which leaves [Heq : y = x], or comes later. *)
Ltac uncons H Heq :=
  match type of H with
  | _ = ?pre ++ _ =>
      let c := fresh "c" in
      destruct pre as [|c pre]; simpl in H;
      [ match type of H with
        | ?y :: ?l = ?x :: ?post =>
            assert (Heq : y = x) by congruence;
            assert (l = post) by congruence;
            clear H; subst post
        end
      | injection H as <- H ]
  end.

(** The call sought is not [y]. *)
Ltac behead H :=
  let Heq := fresh "Heq" in uncons H Heq; [discriminate Heq|].

(** A rollback only starts reverts: the call [H] finds there is none. *)
Ltac not_in_rollback R H :=
  match type of H with
  | In _ _ => pose proof (rollback_calls_revert _ _ _ _ _ _ R H)
  | ?l = _ ++ ?x :: _ =>
      let Hin := fresh "Hin" in
      assert (Hin : In x l) by (rewrite H; apply in_elt);
      pose proof (rollback_calls_revert _ _ _ _ _ _ R Hin)
  end;
  discriminate.

Lemma exited_nonzero_failed oc : exited_nonzero oc = true -> succeeded oc = false.
Proof. destruct oc; simpl; try discriminate. now destruct (_ =? _)%Z. Qed.

Lemma tool_failed_failed oc : tool_failed oc = true -> succeeded oc = false.
Proof. destruct oc; simpl; try discriminate; auto. now destruct (_ =? _)%Z. Qed.

Lemma loop_status p v revs delta res :
  loop_shape p v revs delta res ->
  res = Return tt \/ exit_status res = 1%Z.
Proof.
  induction 1; eauto with machine.
Qed.

Lemma run_status p v t res :
  run_shape p v t res -> res = Return tt \/ exit_status res = 1%Z.
Proof.
  destruct 1; eauto using loop_status with machine.
Qed.

Lemma status_zero_returns p v t res :
  run_shape p v t res -> exit_status res = 0%Z -> res = Return tt.
Proof.
  intros H Z. destruct (run_status _ _ _ _ H) as [->|E]; [reflexivity|].
  rewrite E in Z. discriminate.
Qed.

(** The loop starts with the merge of the first revision that is left. *)
Lemma loop_head p v revs delta res :
  loop_shape p v revs delta res ->
  match revs with
  | r :: _ => exists oc rest, calls delta = (merge_cmd p r, oc) :: rest
  | [] => calls delta = [] /\ res = Return tt
  end.
Proof. destruct 1; simpl; eauto. Qed.

(** *** The properties of the specification *)

(** The commands of a strict run are the first ones of the plan, in the
    order of the plan, then reverts: as long as none has failed, the
    process of rank zero is the switch, that of rank one the update, and
    that of rank [2 + j] the merge of the revision of index [j]. *)
Lemma strict_loop_commands p revs delta res :
  loop_shape p Strict revs delta res ->
  exists m rest,
    map fst (calls delta) = map (merge_cmd p) (firstn m revs) ++ rest /\
    Forall (eq (revert_cmd p)) rest.
Proof.
  intros L; loop_induction L; try discriminate.
  - exists 0, []. split; [reflexivity|constructor].
  - destruct IH as (m & rest & Hm & Hr). exists (S m), rest.
    split; [|exact Hr]. simpl. now rewrite Hm.
  - exists 1, (map fst (calls rho)). split; [reflexivity|].
    destruct (revert_chain_all _ _ _ (rollback_chain _ _ _ _ R)) as [_ F].
    rewrite Forall_map. revert F. apply Forall_impl. intros c Hc. now symmetry.
Qed.

Lemma strict_commands_in_plan_order p config_file o :
  valid p ->
  exists m rest,
    map fst (calls (snd (run Strict config_file (Holds (config_of p)) o))) =
      firstn m (switch_cmd p :: update_cmd p ::
                map (merge_cmd p) (plan_revisions p)) ++ rest /\
    Forall (eq (revert_cmd p)) rest.
Proof.
  intros V. run_cases (run_conforms Strict p config_file o V).
  - exists 1, (map fst (calls rho)). split; [reflexivity|].
    destruct (revert_chain_all _ _ _ (rollback_chain _ _ _ _ R)) as [_ F].
    rewrite Forall_map. revert F. apply Forall_impl. intros c Hc. now symmetry.
  - exists 2, (map fst (calls rho)). split; [reflexivity|].
    destruct (revert_chain_all _ _ _ (rollback_chain _ _ _ _ R)) as [_ F].
    rewrite Forall_map. revert F. apply Forall_impl. intros c Hc. now symmetry.
  - destruct (strict_loop_commands _ _ _ _ L) as (m & rest & Hm & Hr).
    exists (S (S m)), rest. split; [|exact Hr].
    simpl. rewrite Hm, firstn_map. reflexivity.
Qed.

(** In the strict script a failure among the first operations of the loop
    stops the loop there and rolls back. *)
Lemma strict_loop_failure p revs delta res :
  loop_shape p Strict revs delta res ->
  forall k c oc i,
    nth_error (calls delta) k = Some (c, oc) ->
    is_revert c = false -> succeeded oc = false -> k <= i ->
    exit_status res = 1%Z /\
    length (merges delta) <= S i /\
    exists oc1 rest,
      reverts delta = (revert_cmd p, oc1) :: rest /\
      length rest <= 1 /\
      (succeeded oc1 = true -> rest = []).
Proof.
  intros L; loop_induction L;
    intros k c0 oc0 i Hk Hc F Hi; try discriminate.
  - destruct k; discriminate.
  - destruct k as [|k].
    + injection Hk as _ <-. congruence.
    + destruct i as [|i]; [lia|].
      destruct (IH k c0 oc0 i Hk Hc F ltac:(lia)) as (Hs & Hm & Hr).
      split; [exact Hs|]. split; [|exact Hr].
      change (S (length (merges delta)) <= S (S i)). lia.
  - destruct k as [|k].
    2:{ pose proof (rollback_nth_revert _ _ _ _ _ _ _ R Hk). congruence. }
    split; [exact (rollback_status _ _ _ _ R)|]. split.
    + change (S (length (merges rho)) <= S i).
      rewrite (merges_rollback _ _ _ _ R). simpl. lia.
    + change (reverts (Print (MsgMerging (str_revision r) (plan_source p))
                         :: Call (merge_cmd p r) oc
                         :: Print (MsgMergeFailed _ (str_revision r) e)
                         :: Print MsgReverting :: rho))
        with (reverts rho).
      rewrite (reverts_rollback _ _ _ _ R).
      destruct (rollback_once_or_twice _ _ _ R)
        as (oc1 & [(S1 & ->)|(S1 & oc2 & ->)]).
      * exists oc1, []. simpl. auto.
      * exists oc1, [(revert_cmd p, oc2)]. simpl.
        split; [reflexivity|]. split; [lia|congruence].
Qed.

(** C1, as the code has it.  In the strict script on a valid plan, if an
    operation from the switch through the merge of revision [i] fails (it
    is the process of rank [k] of the run, with [k] at most [2 + i]: by
    [strict_commands_in_plan_order] the switch has rank zero, the update
    rank one and the merge of the revision of index [j] rank [2 + j]),
    then the run ends with exit status one, no merge of
    a revision after [i] is started, and the revert is started: once when
    the operation that failed is the switch or the update or when the
    first revert succeeds, and never more than twice. *)
Theorem strict_failure_rolls_back_and_stops
    (p : plan) (config_file : string) (o : oracle)
    (i k : nat) (c : invocation) (oc : outcome) :
  valid p ->
  nth_error (calls (snd (run Strict config_file (Holds (config_of p)) o))) k =
    Some (c, oc) ->
  is_revert c = false ->
  succeeded oc = false ->
  k <= 2 + i ->
  status (run Strict config_file (Holds (config_of p)) o) = 1%Z /\
  length (merges (snd (run Strict config_file (Holds (config_of p)) o)))
    <= S i /\
  exists oc1 rest,
    reverts (snd (run Strict config_file (Holds (config_of p)) o)) =
      (revert_cmd p, oc1) :: rest /\
    length rest <= 1 /\
    (succeeded oc1 = true \/ k < 2 -> rest = []).
Proof.
  intros V Hk Hc F Hi. unfold status.
  run_cases (run_conforms Strict p config_file o V).
  - split; [exact (rollback_status _ _ _ _ R)|]. split.
    + change (length (merges rho) <= S i).
      rewrite (merges_rollback _ _ _ _ R). simpl. lia.
    + change (exists oc1 rest, reverts rho = (revert_cmd p, oc1) :: rest /\
                length rest <= 1 /\ (succeeded oc1 = true \/ k < 2 -> rest = [])).
      rewrite (reverts_rollback _ _ _ _ R).
      destruct (rollback_last _ _ _ R) as (oc1 & ->).
      exists oc1, []. simpl. auto.
  - split; [exact (rollback_status _ _ _ _ R)|]. split.
    + change (length (merges rho) <= S i).
      rewrite (merges_rollback _ _ _ _ R). simpl. lia.
    + change (exists oc1 rest, reverts rho = (revert_cmd p, oc1) :: rest /\
                length rest <= 1 /\ (succeeded oc1 = true \/ k < 2 -> rest = [])).
      rewrite (reverts_rollback _ _ _ _ R).
      destruct (rollback_last _ _ _ R) as (oc1 & ->).
      exists oc1, []. simpl. auto.
  - destruct k as [|[|k]].
    + injection Hk as _ <-. congruence.
    + injection Hk as _ <-. congruence.
    + change (nth_error (calls delta) k = Some (c, oc)) in Hk.
      destruct (strict_loop_failure _ _ _ _ L k c oc i Hk Hc F ltac:(lia))
        as (Hs & Hm & oc1 & rest & Hr & Hl & Ho).
      split; [exact Hs|]. split; [exact Hm|].
      exists oc1, rest. split; [exact Hr|]. split; [exact Hl|].
      intros [S1|K]; [auto|lia].
Qed.

Lemma strict_failure_rolls_back_and_stops_witness :
  valid feature_plan /\
  nth_error (calls (snd (run Strict "config.json"
                           (Holds (config_of feature_plan))
                           second_merge_fails))) 3 =
    Some (merge_cmd feature_plan (RevInt 43), conflict) /\
  is_revert (merge_cmd feature_plan (RevInt 43)) = false /\
  succeeded conflict = false /\
  3 <= 2 + 1 /\
  status (run Strict "config.json" (Holds (config_of feature_plan))
            second_merge_fails) = 1%Z.
Proof.
  split; [exact feature_plan_valid|]. split; [reflexivity|].
  split; [reflexivity|]. split; [reflexivity|]. split; [lia|].
  exact (proj1 (strict_failure_rolls_back_and_stops feature_plan
                  "config.json" second_merge_fails 1 3
                  (merge_cmd feature_plan (RevInt 43)) conflict
                  feature_plan_valid eq_refl eq_refl eq_refl
                  ltac:(lia))).
Defined.

(** C1 as the specification states it does not hold: on the plan of the
    examples, the merge of the second revision fails and so does the
    revert of the handler of the loop; the handler around the loop then
    starts the revert again, so that it is started twice, not once. *)
Lemma strict_failure_reverts_twice :
  valid feature_plan /\
  nth_error (calls (snd (run Strict "config.json"
                           (Holds (config_of feature_plan))
                           second_merge_and_next_fail))) 3 =
    Some (merge_cmd feature_plan (RevInt 43), conflict) /\
  succeeded conflict = false /\
  length (reverts (snd (run Strict "config.json"
                          (Holds (config_of feature_plan))
                          second_merge_and_next_fail))) = 2 /\
  length (reverts (snd (run Strict "config.json"
                          (Holds (config_of feature_plan))
                          second_merge_and_next_fail))) <> 1.
Proof.
  split; [exact feature_plan_valid|].
  split; [reflexivity|]. split; [reflexivity|].
  split; [reflexivity|]. vm_compute. discriminate.
Qed.

(** When every switch, update and merge succeeds, the loop ends well and
    nothing is reverted. *)
Lemma loop_all_succeed p v revs delta res :
  loop_shape p v revs delta res ->
  (forall c oc, In (c, oc) (calls delta) ->
     is_switch c || is_update c || is_merge c = true -> succeeded oc = true) ->
  res = Return tt /\ reverts delta = [].
Proof.
  unfold reverts.
  intros L; loop_induction L; intros A.
  - split; reflexivity.
  - apply IH. intros c oc0 Hin. apply A. simpl. auto.
  - assert (succeeded oc = true) by (apply (A (merge_cmd p r)); simpl; auto).
    congruence.
  - apply exited_nonzero_failed in N.
    assert (succeeded oc = true) by (apply (A (merge_cmd p r)); simpl; auto).
    congruence.
  - apply exited_nonzero_failed in N.
    assert (succeeded oc = true) by (apply (A (merge_cmd p r)); simpl; auto).
    congruence.
  - apply exited_nonzero_failed in N.
    assert (succeeded oc = true) by (apply (A (merge_cmd p r)); simpl; auto).
    congruence.
Qed.

Lemma run_all_succeed p v t res :
  run_shape p v t res ->
  (forall c oc, In (c, oc) (calls t) ->
     is_switch c || is_update c || is_merge c = true -> succeeded oc = true) ->
  res = Return tt /\ reverts t = [].
Proof.
  intros S; run_cases S;
    intros A.
  - assert (succeeded sw = true) by (apply (A (switch_cmd p)); simpl; auto).
    congruence.
  - assert (succeeded up = true) by (apply (A (update_cmd p)); simpl; auto).
    congruence.
  - apply (loop_all_succeed _ _ _ _ _ L).
    intros c oc Hin. apply A. simpl. auto.
Qed.

(** C2. On a valid plan, with at least one revision, if every switch,
    update and merge that the run starts succeeds, the run ends with exit
    status zero and no revert is ever started.  This holds for both
    scripts. *)
Theorem all_operations_succeed_then_success_without_revert
    (v : variant) (p : plan) (config_file : string) (o : oracle) :
  valid p ->
  (forall c oc,
      In (c, oc) (calls (snd (run v config_file (Holds (config_of p)) o))) ->
      is_switch c || is_update c || is_merge c = true ->
      succeeded oc = true) ->
  status (run v config_file (Holds (config_of p)) o) = 0%Z /\
  reverts (snd (run v config_file (Holds (config_of p)) o)) = [].
Proof.
  intros V A.
  destruct (run_all_succeed _ _ _ _ (run_conforms v p config_file o V) A)
    as [Hres Hrev].
  split; [|exact Hrev]. unfold status. now rewrite Hres.
Qed.

Lemma all_operations_succeed_then_success_without_revert_witness :
  valid feature_plan /\
  status (run Strict "config.json" (Holds (config_of feature_plan)) all_done)
    = 0%Z /\
  reverts (snd (run Strict "config.json" (Holds (config_of feature_plan))
                  all_done)) = [].
Proof.
  split; [exact feature_plan_valid|].
  apply (all_operations_succeed_then_success_without_revert Strict
           feature_plan "config.json" all_done feature_plan_valid).
  intros c oc Hin _. vm_compute in Hin.
  destruct Hin as [H|[H|[H|[H|[]]]]]; inversion H; reflexivity.
Defined.

(** A merge that reports a conflict is followed by the tool. *)
Lemma loop_handoff p revs delta res :
  loop_shape p Interactive revs delta res ->
  forall pre r oc post,
    calls delta = pre ++ (merge_cmd p r, oc) :: post ->
    exited_nonzero oc = true ->
    exists oc' post', post = (tortoise_cmd p, oc') :: post'.
Proof.
  intros L; loop_induction L; intros pre r0 oc0 post Hc F.
  - destruct pre; discriminate.
  - uncons Hc Heq.
    + injection Heq as _ <-. apply exited_nonzero_failed in F. congruence.
    + exact (IH _ _ _ _ Hc F).
  - uncons Hc Heq.
    + injection Heq as _ <-. rewrite (N eq_refl) in F. discriminate.
    + not_in_rollback R Hc.
  - uncons Hc Heq; [eauto|].
    behead Hc. exact (IH _ _ _ _ Hc F).
  - uncons Hc Heq; [eauto|].
    behead Hc. not_in_rollback R Hc.
  - uncons Hc Heq; [eauto|].
    behead Hc. not_in_rollback R Hc.
Qed.

(** After the tool failed the run only reverts, and ends with status
    one. *)
Lemma loop_tool_abort p revs delta res :
  loop_shape p Interactive revs delta res ->
  forall pre oc post,
    calls delta = pre ++ (tortoise_cmd p, oc) :: post ->
    succeeded oc = false ->
    exit_status res = 1%Z /\ post <> [] /\
    Forall (fun c => fst c = revert_cmd p) post.
Proof.
  intros L; loop_induction L; intros pre oc0 post Hc F.
  - destruct pre; discriminate.
  - behead Hc. exact (IH _ _ _ Hc F).
  - behead Hc. not_in_rollback R Hc.
  - behead Hc.
    uncons Hc Heq.
    + injection Heq as <-. congruence.
    + exact (IH _ _ _ Hc F).
  - behead Hc.
    uncons Hc Heq.
    + split; [exact (rollback_status _ _ _ _ R)|].
      exact (revert_chain_all _ _ _ (rollback_chain _ _ _ _ R)).
    + not_in_rollback R Hc.
  - behead Hc.
    uncons Hc Heq.
    + split; [exact (rollback_status _ _ _ _ R)|].
      exact (revert_chain_all _ _ _ (rollback_chain _ _ _ _ R)).
    + not_in_rollback R Hc.
Qed.

(** After the tool exited with zero the loop goes on with the next
    revision, and ends well when none is left. *)
Lemma loop_tool_continue p revs delta res :
  loop_shape p Interactive revs delta res ->
  forall pre oc post,
    calls delta = pre ++ (tortoise_cmd p, oc) :: post ->
    succeeded oc = true ->
    match nth_error revs (length (filter (fun c => is_merge (fst c)) pre)) with
    | Some r' => exists oc' post', post = (merge_cmd p r', oc') :: post'
    | None => post = [] /\ res = Return tt
    end.
Proof.
  intros L; loop_induction L; intros pre oc0 post Hc F.
  - destruct pre; discriminate.
  - behead Hc. exact (IH _ _ _ Hc F).
  - behead Hc. not_in_rollback R Hc.
  - behead Hc.
    uncons Hc Heq.
    + pose proof (loop_head _ _ _ _ _ H) as Hh. destruct rs; exact Hh.
    + exact (IH _ _ _ Hc F).
  - behead Hc.
    uncons Hc Heq.
    + injection Heq as <-. apply tool_failed_failed in T. congruence.
    + not_in_rollback R Hc.
  - behead Hc.
    uncons Hc Heq.
    + injection Heq as <-. discriminate.
    + not_in_rollback R Hc.
Qed.

(** The trace records what the oracle answered. *)
Lemma answers_print o t m : answers o t -> answers o (t ++ [Print m]).
Proof. unfold answers. now rewrite calls_print. Qed.

Lemma answers_call o t i :
  answers o t -> answers o (t ++ [Call i (o (length (calls t)))]).
Proof.
  intros H j c oc. rewrite calls_app. simpl. intros Hn.
  destruct (Nat.lt_ge_cases j (length (calls t))) as [Hlt|Hge].
  - rewrite nth_error_app1 in Hn by exact Hlt. exact (H _ _ _ Hn).
  - rewrite nth_error_app2 in Hn by exact Hge.
    destruct (j - length (calls t)) as [|d] eqn:D; simpl in Hn.
    + injection Hn as _ <-. f_equal. lia.
    + destruct d; discriminate.
Qed.

Lemma keeps_ret {A} (a : A) : keeps (ret a).
Proof. intros o t H. exact H. Qed.

Lemma keeps_raise {A} e : keeps (raise (A:=A) e).
Proof. intros o t H. exact H. Qed.

Lemma keeps_print m : keeps (print m).
Proof. intros o t H. now apply answers_print. Qed.

Lemma keeps_spawn i : keeps (spawn i).
Proof. intros o t H. now apply answers_call. Qed.

Lemma keeps_bind {A B} (m : M A) (k : A -> M B) :
  keeps m -> (forall a, keeps (k a)) -> keeps (bind m k).
Proof.
  intros Hm Hk o t H. rewrite bind_eq. specialize (Hm o t H).
  destruct (m o t) as [[a|e] t']; [exact (Hk a o t' Hm)|exact Hm].
Qed.

Lemma keeps_try {A} (body : M A) handler :
  keeps body -> (forall e h, handler e = Some h -> keeps h) ->
  keeps (try_except body handler).
Proof.
  intros Hb Hh o t H. unfold try_except. specialize (Hb o t H).
  destruct (body o t) as [[a|e] t']; [exact Hb|].
  destruct (handler e) as [h|] eqn:E; [exact (Hh e h E o t' Hb)|exact Hb].
Qed.

Lemma keeps_for_each {A} (xs : list A) body :
  (forall x, keeps (body x)) -> keeps (for_each xs body).
Proof.
  intros H. induction xs as [|x xs IH]; simpl.
  - apply keeps_ret.
  - apply keeps_bind; [apply H|intros _; exact IH].
Qed.

Lemma keeps_run_command command cwd : keeps (SVNMerge.run_command command cwd).
Proof.
  unfold SVNMerge.run_command. apply keeps_try.
  - unfold subprocess_run, attr_strip. apply keeps_bind; [|intros result].
    + apply keeps_bind; [apply keeps_spawn|intros [rc out err| |]].
      * destruct (rc =? 0)%Z; [apply keeps_ret|apply keeps_raise].
      * apply keeps_raise.
      * apply keeps_raise.
    + destruct (cp_stdout result); [apply keeps_ret|apply keeps_raise].
  - intros e h E. destruct e; try discriminate. injection E as <-.
    unfold attr_strip.
    destruct stdout; [|apply keeps_bind; [apply keeps_raise|intros out]];
      [apply keeps_bind; [apply keeps_ret|intros out]|];
      (destruct stderr;
       [apply keeps_bind; [apply keeps_ret|intros err]; apply keeps_raise
       |apply keeps_bind; [apply keeps_raise|intros err]; apply keeps_raise]).
Qed.

Lemma keeps_operation m command cwd :
  keeps (print m ;; SVNMerge.run_command command cwd ;; ret tt).
Proof.
  apply keeps_bind; [apply keeps_print|intros _].
  apply keeps_bind; [apply keeps_run_command|intros _; apply keeps_ret].
Qed.

Lemma keeps_existWithError w :
  keeps (SVMMergeWithTortoise.existWithError (A:=unit) w).
Proof.
  unfold SVMMergeWithTortoise.existWithError. apply keeps_bind.
  - apply keeps_operation.
  - intros _. apply keeps_raise.
Qed.

Lemma keeps_resolve w : keeps (SVMMergeWithTortoise.svn_resolve_with_tortoise w).
Proof.
  unfold SVMMergeWithTortoise.svn_resolve_with_tortoise.
  apply keeps_bind; [apply keeps_print|intros _]. apply keeps_try.
  - unfold subprocess_run. apply keeps_bind; [|intros _; apply keeps_print].
    apply keeps_bind; [apply keeps_spawn|intros [rc out err| |]].
    + destruct (rc =? 0)%Z; [apply keeps_ret|apply keeps_raise].
    + apply keeps_raise.
    + apply keeps_raise.
  - intros e h E. destruct e; try discriminate; injection E as <-;
      (apply keeps_bind; [apply keeps_print|intros _; apply keeps_existWithError]).
Qed.

Lemma keeps_interactive_step s w r :
  keeps (SVMMergeWithTortoise.merge_step s w r).
Proof.
  unfold SVMMergeWithTortoise.merge_step. apply keeps_try.
  - apply keeps_bind; [|intros _; apply keeps_print].
    unfold SVMMergeWithTortoise.svn_merge.
    apply keeps_bind; [apply keeps_print|intros _]. apply keeps_try.
    + apply keeps_bind; [apply keeps_run_command|intros _; apply keeps_ret].
    + intros e h E. destruct e; try discriminate. injection E as <-.
      do 2 (apply keeps_bind; [apply keeps_print|intros _]).
      apply keeps_resolve.
  - intros e h E. destruct (is_Exception e); [|discriminate].
    injection E as <-.
    do 2 (apply keeps_bind; [apply keeps_print|intros _]).
    apply keeps_existWithError.
Qed.

Lemma keeps_interactive_main f disk : keeps (SVMMergeWithTortoise.main f disk).
Proof.
  unfold SVMMergeWithTortoise.main. apply keeps_bind.
  - destruct disk;
      first [ apply keeps_ret | apply keeps_raise
            | apply keeps_bind; [apply keeps_print|intros _; apply keeps_raise] ].
  - intros d. apply keeps_bind;
      [destruct d; [apply keeps_ret|apply keeps_raise]|intros c].
    destruct (negb _);
      [apply keeps_bind; [apply keeps_print|intros _; apply keeps_raise]|].
    apply keeps_try.
    + apply keeps_bind; [apply keeps_operation|intros _].
      apply keeps_bind; [apply keeps_operation|intros _].
      apply keeps_bind; [|intros _; apply keeps_print].
      apply keeps_for_each. intros r. apply keeps_interactive_step.
    + intros e h E. destruct (is_Exception e); [|discriminate].
      injection E as <-.
      do 2 (apply keeps_bind; [apply keeps_print|intros _]).
      apply keeps_existWithError.
Qed.

Lemma interactive_run_answers f disk o :
  answers o (snd (run Interactive f disk o)).
Proof.
  apply keeps_interactive_main. intros i c oc H. destruct i; discriminate.
Qed.

Lemma skipn_nth {A} (l : list A) : forall k x,
  nth_error l k = Some x -> skipn k l = x :: skipn (S k) l.
Proof.
  induction l as [|y l IH]; intros [|k] x H; try discriminate.
  - now injection H as ->.
  - exact (IH k x H).
Qed.

(** When the environment lets the loop come to the revision of index
    [k], the run is the rest of the loop from there, with [n] processes
    started. *)
Lemma applying_rest p f o :
  valid p ->
  forall k n,
    applying o k = Some n -> k <= length (plan_revisions p) ->
    exists t,
      length (calls t) = n /\
      run Interactive f (Holds (config_of p)) o =
      interactive_rest p (skipn k (plan_revisions p)) o t.
Proof.
  intros V. induction k as [|k IH]; intros n A Hk.
  - simpl in A.
    destruct (succeeded (o 0)) eqn:E0; [|discriminate].
    destruct (succeeded (o 1)) eqn:E1; [|discriminate]. injection A as <-.
    unfold run. rewrite (interactive_main_eq p f o [] V), front_eq.
    cbv zeta. simpl calls. simpl length. rewrite E0, E1.
    eexists; split; [|reflexivity]. reflexivity.
  - simpl in A. destruct (applying o k) as [m|] eqn:Ak; [|discriminate].
    destruct (IH m eq_refl) as (t & Hl & Hrun); [lia|].
    destruct (nth_error (plan_revisions p) k) as [r|] eqn:Hr.
    2:{ apply nth_error_None in Hr. lia. }
    rewrite Hrun, (skipn_nth _ _ _ Hr).
    rewrite interactive_rest_cons, interactive_merge_step_eq.
    rewrite bind_eq, interactive_svn_merge_eq, Hl.
    destruct (succeeded (o m)) eqn:E.
    + injection A as <-. cbv [print caught step_then].
      eexists; split; [|reflexivity].
      rewrite !calls_app, !length_app, Hl. simpl. lia.
    + destruct (exited_nonzero (o m)) eqn:N; [|discriminate].
      destruct (succeeded (o (S m))) eqn:E'; [|discriminate].
      injection A as <-. rewrite resolve_eq.
      match goal with
      | |- context [o (length (calls ?t1))] =>
          replace (length (calls t1)) with (S m)
            by (rewrite calls_app, length_app, Hl; simpl; lia)
      end.
      destruct (o (S m)) as [rc out err| |]; try discriminate.
      simpl in E'. rewrite E'. cbv [print caught step_then].
      eexists; split; [|reflexivity].
      rewrite !calls_app, !length_app, Hl. simpl. lia.
Qed.

(** The merge the loop has come to: it is started, and when it cannot be
    started the run rolls back. *)
Lemma loop_first_merge p r rs delta res :
  loop_shape p Interactive (r :: rs) delta res ->
  exists oc post,
    calls delta = (merge_cmd p r, oc) :: post /\
    (oc = NotFound \/ oc = CannotStart ->
     exit_status res = 1%Z /\ post <> [] /\
     Forall (fun c => fst c = revert_cmd p) post).
Proof.
  intros L. inversion L as [|? ? oc ? ? E|? ? oc ? ? ? E N R
                            |? ? oc ? ? ? ? ? N|? ? oc ? ? ? ? ? ? N
                            |? ? oc ? ? ? ? ? N]; subst;
    eexists oc, _; (split; [reflexivity|]); intros [->| ->];
    try discriminate.
  - split; [exact (rollback_status _ _ _ _ R)|].
    exact (revert_chain_all _ _ _ (rollback_chain _ _ _ _ R)).
  - split; [exact (rollback_status _ _ _ _ R)|].
    exact (revert_chain_all _ _ _ (rollback_chain _ _ _ _ R)).
Qed.

(** C3, as the code has it.  In the interactive script on a valid plan,
    whenever the environment lets the loop come to a revision (the switch
    and the update succeed, and each merge before it succeeds or exits
    with a code other than zero and is followed by a run of the tool that
    exits with zero), the merge of that revision is started, as the
    process of the rank the environment gives; when it exits with a code
    other than zero the interactive tool is the next process; when it
    cannot be started the tool is not run: what follows is the revert and
    nothing but reverts, and the run ends with exit status one.  Every
    merge of the run that exits with a code other than zero is followed
    at once by the tool.  When the tool fails, in any way, what follows
    is the revert and nothing but reverts, and the run ends with exit
    status one; when it exits with zero, the loop goes on with the merge
    of the next revision of the list, or ends with exit status zero when
    none is left.  When the environment lets the loop come to the end of
    the list, the run prints that all revisions were processed and ends
    with exit status zero. *)
Theorem interactive_conflict_goes_to_the_tool
    (p : plan) (config_file : string) (o : oracle) :
  valid p ->
  let x := run Interactive config_file (Holds (config_of p)) o in
  (forall k n r,
     applying o k = Some n ->
     nth_error (plan_revisions p) k = Some r ->
     exists pre post,
       calls (snd x) = pre ++ (merge_cmd p r, o n) :: post /\
       length pre = n /\
       (exited_nonzero (o n) = true ->
        exists post', post = (tortoise_cmd p, o (S n)) :: post') /\
       (o n = NotFound \/ o n = CannotStart ->
        status x = 1%Z /\ post <> [] /\
        Forall (fun c => fst c = revert_cmd p) post)) /\
  (forall pre r oc post,
     calls (snd x) = pre ++ (merge_cmd p r, oc) :: post ->
     exited_nonzero oc = true ->
     exists oc' post', post = (tortoise_cmd p, oc') :: post') /\
  (forall pre oc post,
     calls (snd x) = pre ++ (tortoise_cmd p, oc) :: post ->
     succeeded oc = false ->
     status x = 1%Z /\ post <> [] /\
     Forall (fun c => fst c = revert_cmd p) post) /\
  (forall pre oc post,
     calls (snd x) = pre ++ (tortoise_cmd p, oc) :: post ->
     succeeded oc = true ->
     match nth_error (plan_revisions p)
             (length (filter (fun c => is_merge (fst c)) pre)) with
     | Some r' => exists oc' post', post = (merge_cmd p r', oc') :: post'
     | None => post = [] /\ status x = 0%Z
     end) /\
  (forall n,
     applying o (length (plan_revisions p)) = Some n ->
     status x = 0%Z /\ In MsgAllProcessed (printed (snd x)) /\
     length (calls (snd x)) = n).
Proof.
  intros V x.
  assert (Hoff : forall pre r oc post,
     calls (snd x) = pre ++ (merge_cmd p r, oc) :: post ->
     exited_nonzero oc = true ->
     exists oc' post', post = (tortoise_cmd p, oc') :: post').
  { subst x. run_cases (run_conforms Interactive p config_file o V);
      intros pre r oc post Hc F.
    - behead Hc. not_in_rollback R Hc.
    - behead Hc. behead Hc. not_in_rollback R Hc.
    - behead Hc. behead Hc. exact (loop_handoff _ _ _ _ L _ _ _ _ Hc F). }
  split; [|split; [exact Hoff|split; [|split]]].
  - (* the merges the environment leads to *)
    intros k n r A Hr.
    assert (Hk : k <= length (plan_revisions p)).
    { apply Nat.lt_le_incl. apply nth_error_Some. congruence. }
    destruct (applying_rest p config_file o V k n A Hk) as (t & Hl & Hrun).
    rewrite (skipn_nth _ _ _ Hr) in Hrun.
    destruct (interactive_rest_shape p (r :: skipn (S k) (plan_revisions p))
                o t) as (delta & Ht & L).
    destruct (loop_first_merge _ _ _ _ _ L) as (oc & post & Hd & Hn).
    assert (Hc : calls (snd x) = calls t ++ (merge_cmd p r, oc) :: post).
    { subst x. rewrite Hrun, Ht, calls_app, Hd. reflexivity. }
    assert (Hoc : oc = o n).
    { apply (interactive_run_answers config_file (Holds (config_of p)) o
               n (merge_cmd p r)).
      fold x. rewrite Hc, nth_error_app2 by lia.
      rewrite Hl, Nat.sub_diag. reflexivity. }
    subst oc. exists (calls t), post.
    split; [exact Hc|]. split; [exact Hl|]. split.
    + intros F. destruct (Hoff _ _ _ _ Hc F) as (oc' & post' & ->).
      exists post'. do 2 f_equal.
      apply (interactive_run_answers config_file (Holds (config_of p)) o
               (S n) (tortoise_cmd p)).
      fold x. rewrite Hc, nth_error_app2 by lia.
      replace (S n - length (calls t)) with 1 by lia. reflexivity.
    + intros F. unfold status. subst x. rewrite Hrun. exact (Hn F).
  - (* the tool fails *)
    unfold status. subst x.
    run_cases (run_conforms Interactive p config_file o V);
      intros pre oc post Hc F.
    + behead Hc. not_in_rollback R Hc.
    + behead Hc. behead Hc. not_in_rollback R Hc.
    + behead Hc. behead Hc. exact (loop_tool_abort _ _ _ _ L _ _ _ Hc F).
  - (* the tool exits with zero *)
    unfold status. subst x.
    run_cases (run_conforms Interactive p config_file o V);
      intros pre oc post Hc F.
    + behead Hc. not_in_rollback R Hc.
    + behead Hc. behead Hc. not_in_rollback R Hc.
    + behead Hc. behead Hc.
      pose proof (loop_tool_continue _ _ _ _ L _ _ _ Hc F) as G.
      simpl filter. destruct (nth_error _ _); [exact G|].
      destruct G as [-> ->]. split; reflexivity.
  - (* the end of the list *)
    intros n A.
    destruct (applying_rest p config_file o V _ n A (Nat.le_refl _))
      as (t & Hl & Hrun).
    rewrite skipn_all in Hrun. unfold status. subst x. rewrite Hrun.
    cbv [interactive_rest try_except bind for_each ret print fst snd].
    split; [reflexivity|]. rewrite calls_print. split; [|exact Hl].
    clear. induction t as [|[m|i oc] t IH]; simpl; auto.
Qed.

Lemma interactive_conflict_goes_to_the_tool_witness :
  valid feature_plan /\
  applying second_merge_fails 1 = Some 3 /\
  applying second_merge_fails 2 = Some 5 /\
  (exists pre post',
     calls (snd (run Interactive "config.json"
                   (Holds (config_of feature_plan)) second_merge_fails)) =
       pre ++ (merge_cmd feature_plan (RevInt 43), conflict)
           :: (tortoise_cmd feature_plan, done) :: post' /\
     length pre = 3) /\
  status (run Interactive "config.json" (Holds (config_of feature_plan))
            second_merge_fails) = 0%Z.
Proof.
  split; [exact feature_plan_valid|].
  split; [reflexivity|]. split; [reflexivity|].
  destruct (interactive_conflict_goes_to_the_tool feature_plan "config.json"
              second_merge_fails feature_plan_valid)
    as (Hmerge & _ & _ & _ & Hend).
  split.
  - destruct (Hmerge 1 3 (RevInt 43) eq_refl eq_refl)
      as (pre & post & Hc & Hl & Htool & _).
    destruct (Htool eq_refl) as (post' & ->).
    exists pre, post'. split; [exact Hc|exact Hl].
  - exact (proj1 (Hend 5 eq_refl)).
Defined.

(** C3 as the specification states it does not hold: with the interactive
    script on the plan of the examples, the merge of the second revision
    fails, its process not being found, and the run does not hand off to
    the interactive tool: it reverts and ends with exit status one. *)
Lemma interactive_unstarted_merge_is_not_handed_off :
  valid feature_plan /\
  In (merge_cmd feature_plan (RevInt 43), NotFound)
     (calls (snd (run Interactive "config.json"
                    (Holds (config_of feature_plan))
                    second_merge_cannot_start))) /\
  succeeded NotFound = false /\
  (forall oc,
     ~ In (tortoise_cmd feature_plan, oc)
          (calls (snd (run Interactive "config.json"
                         (Holds (config_of feature_plan))
                         second_merge_cannot_start)))) /\
  map fst (calls (snd (run Interactive "config.json"
                         (Holds (config_of feature_plan))
                         second_merge_cannot_start))) =
    [switch_cmd feature_plan; update_cmd feature_plan;
     merge_cmd feature_plan (RevInt 42); merge_cmd feature_plan (RevInt 43);
     revert_cmd feature_plan] /\
  status (run Interactive "config.json" (Holds (config_of feature_plan))
            second_merge_cannot_start) = 1%Z.
Proof.
  split; [exact feature_plan_valid|].
  split; [vm_compute; right; right; right; left; reflexivity|].
  split; [reflexivity|]. split; [|split; reflexivity].
  intros oc Hin. vm_compute in Hin.
  repeat (destruct Hin as [Hin|Hin]; [discriminate Hin|]). exact Hin.
Qed.

(** The run of the example above: the merge of revision 43 fails, the tool
    exits with zero, and the interactive script reports both revisions as
    merged and ends well. *)
Example interactive_resolved_run :
  map fst (calls (snd (run Interactive "config.json"
                         (Holds (config_of feature_plan))
                         second_merge_fails))) =
    [switch_cmd feature_plan; update_cmd feature_plan;
     merge_cmd feature_plan (RevInt 42); merge_cmd feature_plan (RevInt 43);
     tortoise_cmd feature_plan] /\
  merged (snd (run Interactive "config.json" (Holds (config_of feature_plan))
                 second_merge_fails)) = ["42"; "43"] /\
  fst (run Interactive "config.json" (Holds (config_of feature_plan))
         second_merge_fails) = Return tt.
Proof. repeat split. Qed.

(** C4. When the configuration lacks [source_branch], [target_branch] or
    [working_dir] (absent or empty), or when its list of revisions is
    absent or empty, both scripts end with exit status one without having
    started any process: no switch, update, merge or revert. *)
Theorem incomplete_configuration_stops_before_any_command
    (v : variant) (config_file : string) (c : config) (o : oracle) :
  incomplete c ->
  status (run v config_file (Holds c) o) = 1%Z /\
  calls (snd (run v config_file (Holds c) o)) = [].
Proof.
  intros H. rewrite (run_refused v config_file c o (incomplete_refused c H)).
  split; reflexivity.
Qed.

Lemma incomplete_configuration_stops_before_any_command_witness :
  incomplete (Config (Some "/branches/feature") (Some "/trunk") (Some "/wc")
                None) /\
  status (run Strict "config.json"
            (Holds (Config (Some "/branches/feature") (Some "/trunk")
                      (Some "/wc") None)) all_done) = 1%Z /\
  calls (snd (run Strict "config.json"
                (Holds (Config (Some "/branches/feature") (Some "/trunk")
                          (Some "/wc") None)) all_done)) = [].
Proof.
  assert (H : incomplete (Config (Some "/branches/feature") (Some "/trunk")
                            (Some "/wc") None)).
  { right. right. right. left. reflexivity. }
  split; [exact H|].
  exact (incomplete_configuration_stops_before_any_command Strict
           "config.json" _ all_done H).
Defined.

(** The merges of the loop are those of a prefix of the list, in the order
    of the list, and of the whole list when the loop ends well. *)
Lemma loop_merges p v revs delta res :
  loop_shape p v revs delta res ->
  exists m,
    map fst (merges delta) = map (merge_cmd p) (firstn m revs) /\
    (res = Return tt -> m = length revs).
Proof.
  intros L; loop_induction L.
  - exists 0. split; reflexivity.
  - destruct IH as (m & Hm & Hr). exists (S m). split.
    + change (merge_cmd p r :: map fst (merges delta) =
              merge_cmd p r :: map (merge_cmd p) (firstn m rs)).
      now rewrite Hm.
    + intros ->. simpl. now rewrite Hr.
  - exists 1. split.
    + change (merge_cmd p r :: map fst (merges rho) = [merge_cmd p r]).
      unfold merges. now rewrite (rollback_no_merge _ _ _ _ R).
    + intros ->. destruct (rollback_raises _ _ _ _ R); discriminate.
  - destruct IH as (m & Hm & Hr). exists (S m). split.
    + change (merge_cmd p r :: map fst (merges delta) =
              merge_cmd p r :: map (merge_cmd p) (firstn m rs)).
      now rewrite Hm.
    + intros ->. simpl. now rewrite Hr.
  - exists 1. split.
    + change (merge_cmd p r :: map fst (merges rho) = [merge_cmd p r]).
      unfold merges. now rewrite (rollback_no_merge _ _ _ _ R).
    + intros ->. destruct (rollback_raises _ _ _ _ R); discriminate.
  - exists 1. split.
    + change (merge_cmd p r :: map fst (merges rho) = [merge_cmd p r]).
      unfold merges. now rewrite (rollback_no_merge _ _ _ _ R).
    + intros ->. destruct (rollback_raises _ _ _ _ R); discriminate.
Qed.

Lemma run_merges p v t res :
  run_shape p v t res ->
  exists m,
    map fst (merges t) = map (merge_cmd p) (firstn m (plan_revisions p)) /\
    (res = Return tt -> m = length (plan_revisions p)).
Proof.
  intros S; run_cases S.
  - exists 0. split.
    + change (map fst (merges rho) = []).
      unfold merges. now rewrite (rollback_no_merge _ _ _ _ R).
    + intros ->. destruct (rollback_raises _ _ _ _ R); discriminate.
  - exists 0. split.
    + change (map fst (merges rho) = []).
      unfold merges. now rewrite (rollback_no_merge _ _ _ _ R).
    + intros ->. destruct (rollback_raises _ _ _ _ R); discriminate.
  - exact (loop_merges _ _ _ _ _ L).
Qed.

(** C5. The merges a run starts are those of the first revisions of the
    list, one for each, in the order in which the list gives them,
    whatever their numbers: nothing is sorted and a revision listed twice
    is merged twice.  When the run ends with exit status zero every
    revision of the list was merged.  This holds for both scripts. *)
Theorem merges_follow_the_list_order
    (v : variant) (p : plan) (config_file : string) (o : oracle) :
  exists m,
    map fst (merges (snd (run v config_file (Holds (config_of p)) o))) =
      map (merge_cmd p) (firstn m (plan_revisions p)) /\
    (status (run v config_file (Holds (config_of p)) o) = 0%Z ->
     m = length (plan_revisions p)).
Proof.
  destruct (accepted (config_of p)) eqn:A.
  - pose proof (run_conforms v p config_file o (accepted_config_of p A)) as S.
    destruct (run_merges _ _ _ _ S) as (m & Hm & Hr).
    exists m. split; [exact Hm|].
    intros Z. apply Hr. exact (status_zero_returns _ _ _ _ S Z).
  - rewrite (run_refused v config_file _ o A). exists 0.
    split; [reflexivity|discriminate].
Qed.

(** On the list 105, 101, 103, 101 the strict script merges 105, 101, 103
    and 101 again, in that order. *)
Example merges_unsorted_with_duplicate :
  map fst (merges (snd (run Strict "config.json"
                          (Holds (config_of unsorted_plan)) all_done))) =
  map (merge_cmd unsorted_plan) [RevInt 105; RevInt 101; RevInt 103; RevInt 101].
Proof. reflexivity. Qed.

(** The revisions reported as merged are all those of the list when the
    loop ends well, and fewer otherwise. *)
Lemma loop_merged_lines p v revs delta res :
  loop_shape p v revs delta res ->
  (res = Return tt /\ merged delta = map str_revision revs) \/
  (exit_status res = 1%Z /\
   exists m, m < length revs /\
             merged delta = map str_revision (firstn m revs)).
Proof.
  intros L; loop_induction L.
  - left. split; reflexivity.
  - destruct IH as [[-> Hm]|(Hs & m & Hlt & Hm)].
    + left. split; [reflexivity|].
      change (str_revision r :: merged delta =
              str_revision r :: map str_revision rs). now rewrite Hm.
    + right. split; [exact Hs|]. exists (S m). split; [simpl; lia|].
      change (str_revision r :: merged delta =
              str_revision r :: map str_revision (firstn m rs)).
      now rewrite Hm.
  - right. split; [exact (rollback_status _ _ _ _ R)|].
    exists 0. split; [simpl; lia|].
    change (merged rho = []). exact (rollback_merged _ _ _ _ R).
  - destruct IH as [[-> Hm]|(Hs & m & Hlt & Hm)].
    + left. split; [reflexivity|].
      change (str_revision r :: merged delta =
              str_revision r :: map str_revision rs). now rewrite Hm.
    + right. split; [exact Hs|]. exists (S m). split; [simpl; lia|].
      change (str_revision r :: merged delta =
              str_revision r :: map str_revision (firstn m rs)).
      now rewrite Hm.
  - right. split; [exact (rollback_status _ _ _ _ R)|].
    exists 0. split; [simpl; lia|].
    change (merged (Print notice :: rho) = []).
    destruct notice; try discriminate; exact (rollback_merged _ _ _ _ R).
  - right. split; [exact (rollback_status _ _ _ _ R)|].
    exists 0. split; [simpl; lia|].
    change (merged rho = []). exact (rollback_merged _ _ _ _ R).
Qed.

Lemma run_merged_lines p v t res :
  plan_revisions p <> [] ->
  run_shape p v t res ->
  (res = Return tt /\ merged t = map str_revision (plan_revisions p)) \/
  (exit_status res = 1%Z /\
   exists m, m < length (plan_revisions p) /\
             merged t = map str_revision (firstn m (plan_revisions p))).
Proof.
  intros Hne.
  assert (0 < length (plan_revisions p))
    by (destruct (plan_revisions p); [congruence|simpl; lia]).
  intros S; run_cases S.
  - right. split; [exact (rollback_status _ _ _ _ R)|].
    exists 0. split; [assumption|].
    change (merged rho = []). exact (rollback_merged _ _ _ _ R).
  - right. split; [exact (rollback_status _ _ _ _ R)|].
    exists 0. split; [assumption|].
    change (merged rho = []). exact (rollback_merged _ _ _ _ R).
  - exact (loop_merged_lines _ _ _ _ _ L).
Qed.

(** A run that ends well started no revert, and each of its commands
    succeeded, but for the merges whose conflict the interactive tool was
    given. *)
Lemma loop_returns p v revs delta res :
  loop_shape p v revs delta res ->
  res = Return tt ->
  reverts delta = [] /\
  forall c oc, In (c, oc) (calls delta) ->
    succeeded oc = true \/
    (v = Interactive /\ is_merge c = true /\ exited_nonzero oc = true).
Proof.
  intros L; loop_induction L;
    intros Hres;
    try (subst res; destruct (rollback_raises _ _ _ _ R); discriminate).
  - split; [reflexivity|intros c oc []].
  - destruct (IH Hres) as [Hr Hc]. split; [exact Hr|].
    intros c oc0 [Heq|Hin]; [injection Heq as <- <-; auto|auto].
  - destruct (IH Hres) as [Hr Hc]. split; [exact Hr|].
    intros c oc0 [Heq|[Heq|Hin]].
    + injection Heq as <- <-. right. auto.
    + injection Heq as <- <-. auto.
    + auto.
Qed.

Lemma run_returns p v t res :
  run_shape p v t res ->
  res = Return tt ->
  reverts t = [] /\
  forall c oc, In (c, oc) (calls t) ->
    succeeded oc = true \/
    (v = Interactive /\ is_merge c = true /\ exited_nonzero oc = true).
Proof.
  intros S; run_cases S;
    intros Hres;
    try (subst res; destruct (rollback_raises _ _ _ _ R); discriminate).
  destruct (loop_returns _ _ _ _ _ L Hres) as [Hr Hc]. split; [exact Hr|].
  intros c oc0 [Heq|[Heq|Hin]].
  - injection Heq as <- <-. auto.
  - injection Heq as <- <-. auto.
  - auto.
Qed.

Lemma status_reading_stopped v disk x :
  status x = 1%Z ->
  calls (snd x) = [] ->
  ~ applied_all disk (snd x) ->
  status_reading v disk x.
Proof.
  unfold status_reading, reverts. intros -> -> Hn. simpl.
  repeat split; auto; try discriminate; try tauto.
Qed.

Lemma status_reading_run v config_file disk o :
  status_reading v disk (run v config_file disk o).
Proof.
  assert (Hstop : match disk with Holds _ => False | _ => True end ->
                  status_reading v disk (run v config_file disk o)).
  { intros H. destruct (run_not_loaded v config_file o disk H) as (H1 & H2 & _).
    apply status_reading_stopped; auto.
    intros (c & Hc & _). subst disk. exact H. }
  destruct disk as [| | |e| |c]; try (apply Hstop; exact I). clear Hstop.
  - destruct (accepted c) eqn:A.
    2:{ apply status_reading_stopped;
          rewrite ?(run_refused v config_file c o A); auto.
        intros (c' & Hc & A' & _). injection Hc as <-. congruence. }
    destruct (accepted_plan c A) as (p & V & ->).
    pose proof (run_conforms v p config_file o V) as S.
    assert (Hne : plan_revisions p <> []) by apply V.
    unfold status_reading, status.
    split; [|split; [|split; [|split]]].
    + destruct (run_status _ _ _ _ S) as [->|E]; auto.
    + split.
      * intros Z. exists (config_of p). split; [reflexivity|]. split; [exact A|].
        destruct (run_merged_lines _ _ _ _ Hne S) as [[_ Hm]|[E _]];
          [exact Hm|rewrite E in Z; discriminate].
      * intros (c & Hc & _ & Hm). injection Hc as <-.
        destruct (run_merged_lines _ _ _ _ Hne S)
          as [[-> _]|(_ & m & Hlt & Hm')]; [reflexivity|].
        rewrite Hm' in Hm. apply (f_equal (@length _)) in Hm.
        rewrite !length_map, length_firstn in Hm.
        change (get_revisions (config_of p)) with (plan_revisions p) in Hm.
        lia.
    + simpl. congruence.
    + intros Hr. destruct (run_status _ _ _ _ S) as [E|E]; [|exact E].
      destruct (run_returns _ _ _ _ S E) as [Hn _]. congruence.
    + intros c oc Hin F. destruct (run_status _ _ _ _ S) as [E|E]; [|auto].
      destruct (run_returns _ _ _ _ S E) as [_ Hc].
      destruct (Hc c oc Hin) as [G|G]; [congruence|auto].
Qed.

(** C6, as the code has it.  The exit status of either script is zero or
    one.  It is zero exactly when the configuration was accepted and every
    revision of its list was reported as merged, that is on full success.
    It is one on any validation failure, as soon as a revert was started,
    and whenever a command failed, with one exception: in the interactive
    script a merge that exits with a code other than zero does not by
    itself make the status one. *)
Theorem exit_status_zero_exactly_on_full_success
    (v : variant) (config_file : string) (disk : file_state) (o : oracle) :
  (status (run v config_file disk o) = 0%Z \/
   status (run v config_file disk o) = 1%Z) /\
  (status (run v config_file disk o) = 0%Z <->
   applied_all disk (snd (run v config_file disk o))) /\
  (validation_failed disk -> status (run v config_file disk o) = 1%Z) /\
  (reverts (snd (run v config_file disk o)) <> [] ->
   status (run v config_file disk o) = 1%Z) /\
  (forall c oc,
     In (c, oc) (calls (snd (run v config_file disk o))) ->
     succeeded oc = false ->
     status (run v config_file disk o) = 1%Z \/
     (v = Interactive /\ is_merge c = true /\ exited_nonzero oc = true)).
Proof. exact (status_reading_run v config_file disk o). Qed.

(** C6 as the specification states it does not hold: with the interactive
    script on the plan of the examples, the merge of the second revision
    exits with the code one, the interactive tool then exits with zero,
    and the exit status of the run is zero although a command failed. *)
Lemma interactive_status_zero_after_failed_merge :
  valid feature_plan /\
  In (merge_cmd feature_plan (RevInt 43), conflict)
     (calls (snd (run Interactive "config.json"
                    (Holds (config_of feature_plan)) second_merge_fails))) /\
  succeeded conflict = false /\
  status (run Interactive "config.json" (Holds (config_of feature_plan))
            second_merge_fails) = 0%Z /\
  status (run Interactive "config.json" (Holds (config_of feature_plan))
            second_merge_fails) <> 1%Z.
Proof.
  split; [exact feature_plan_valid|].
  split; [vm_compute; right; right; right; left; reflexivity|].
  split; [reflexivity|]. split; [reflexivity|]. vm_compute. discriminate.
Qed.

(** C7. [svn_merge] starts the merge command of the client for exactly the
    one revision it is given, with [--accept theirs-full]: in the strict
    script it is the only process the function starts; in the interactive
    script it is the first one, and no other merge follows it within the
    call. *)
Theorem svn_merge_one_revision_theirs_full
    (revision source_branch working_dir : string) (o : oracle) (t : trace) :
  let merge :=
    Invocation
      ["svn"; "merge"; "-c"; revision; source_branch; "--accept"; "theirs-full"]
      (Some working_dir) in
  calls (snd (SVNMerge.svn_merge revision source_branch working_dir o t)) =
    calls t ++ [(merge, o (length (calls t)))] /\
  exists rest,
    calls (snd (SVMMergeWithTortoise.svn_merge revision source_branch
                  working_dir o t)) =
      calls t ++ (merge, o (length (calls t))) :: rest /\
    Forall (fun c => is_merge (fst c) = false) rest.
Proof.
  cbv zeta.
  pose (p := Plan source_branch "" working_dir []).
  split.
  - change (calls (snd (SVNMerge.svn_merge (str_revision (RevStr revision))
                          (plan_source p) (plan_dir p) o t)) =
            calls t ++ [(merge_cmd p (RevStr revision), o (length (calls t)))]).
    rewrite strict_svn_merge_eq. simpl snd. rewrite calls_app. reflexivity.
  - change (exists rest,
      calls (snd (SVMMergeWithTortoise.svn_merge (str_revision (RevStr revision))
                    (plan_source p) (plan_dir p) o t)) =
        calls t ++ (merge_cmd p (RevStr revision), o (length (calls t))) :: rest /\
      Forall (fun c => is_merge (fst c) = false) rest).
    rewrite interactive_svn_merge_eq.
    destruct (succeeded _).
    { exists []. simpl snd. rewrite calls_app. split; [reflexivity|constructor]. }
    destruct (exited_nonzero _).
    2:{ exists []. simpl snd. rewrite calls_app.
        split; [reflexivity|constructor]. }
    rewrite resolve_eq.
    match goal with
    | |- context [match o ?n with Exited _ _ _ => _ | _ => _ end] =>
        destruct (o n) as [rc out err| |]
    end.
    + destruct (rc =? 0)%Z.
      * eexists. simpl snd. rewrite !calls_app. simpl. rewrite <- app_assoc.
        split; [reflexivity|repeat constructor].
      * rewrite revert_exit_eq. eexists. simpl snd. rewrite !calls_app. simpl.
        rewrite <- !app_assoc.
        split; [reflexivity|repeat constructor].
    + rewrite revert_exit_eq. eexists. simpl snd. rewrite !calls_app. simpl.
      rewrite <- !app_assoc.
      split; [reflexivity|repeat constructor].
    + eexists. simpl snd. rewrite !calls_app. simpl. rewrite <- !app_assoc.
      split; [reflexivity|repeat constructor].
Qed.

(** C8. When a command started by [run_command] exits with a return code
    other than zero, [run_command] raises a [RuntimeError] whose message
    carries the words of the command, the return code in decimal, and
    the two captured streams, standard output and standard error, each
    as Python reads it in text mode and with the white space around it
    removed.  The function has the same text in both scripts. *)
Theorem run_command_failure_carries_diagnostics
    (command : list string) (cwd : option string) (o : oracle) (t : trace)
    (rc : Z) (out err : string) :
  o (length (calls t)) = Exited rc out err ->
  rc <> 0%Z ->
  let raised :=
    (Raise (RuntimeError
       ("Command failed: " ++ join " " command ++ nl ++
        "Return code: " ++ str_int rc ++ nl ++
        "Output: " ++ strip (universal_newlines out) ++ nl ++
        "Error: " ++ strip (universal_newlines err))%string),
     t ++ [Call (Invocation command cwd) (Exited rc out err)]) in
  SVNMerge.run_command command cwd o t = raised /\
  SVMMergeWithTortoise.run_command command cwd o t = raised.
Proof.
  intros H Hrc. cbv zeta.
  change SVMMergeWithTortoise.run_command with SVNMerge.run_command.
  rewrite run_command_eq, H. unfold command_result.
  apply Z.eqb_neq in Hrc. rewrite Hrc. split; reflexivity.
Qed.

Lemma run_command_failure_carries_diagnostics_witness :
  nothing_works (length (calls [])) = Exited 1 "" "Tree conflict" /\
  1%Z <> 0%Z /\
  SVNMerge.run_command ["svn"; "update"] (Some "/wc") nothing_works [] =
  (Raise (RuntimeError
            ("Command failed: svn update" ++ nl ++ "Return code: 1" ++ nl ++
             "Output: " ++ nl ++ "Error: Tree conflict")%string),
   [Call (Invocation ["svn"; "update"] (Some "/wc"))
      (Exited 1 "" "Tree conflict")]).
Proof.
  split; [reflexivity|]. split; [discriminate|].
  exact (proj1 (run_command_failure_carries_diagnostics
                  ["svn"; "update"] (Some "/wc") nothing_works []
                  1 "" "Tree conflict" eq_refl ltac:(discriminate))).
Defined.

(** The four operations of the strict script let that error out as it
    is. *)
Lemma strict_operations_let_the_error_out
    (m : message) (command : list string) (cwd : option string)
    (o : oracle) (t : trace) (rc : Z) (out err : string) :
  o (length (calls t)) = Exited rc out err ->
  rc <> 0%Z ->
  fst ((print m ;; SVNMerge.run_command command cwd ;; ret tt) o t) =
  Raise (RuntimeError
           (SVNMerge.error_message command rc (captured out) (captured err))).
Proof.
  intros H Hrc. rewrite vcs_eq, H. unfold vcs_result. simpl.
  apply Z.eqb_neq in Hrc. now rewrite Hrc.
Qed.

(** In the strict script, after a merge that fails the revert is started
    once when it succeeds and twice when it fails. *)
Lemma strict_loop_failed_merge p revs delta res :
  loop_shape p Strict revs delta res ->
  forall r oc,
    In (merge_cmd p r, oc) (calls delta) -> succeeded oc = false ->
    exit_status res = 1%Z /\
    exists oc1,
      (succeeded oc1 = true /\ reverts delta = [(revert_cmd p, oc1)]) \/
      (succeeded oc1 = false /\
       exists oc2,
         reverts delta = [(revert_cmd p, oc1); (revert_cmd p, oc2)]).
Proof.
  intros L; loop_induction L;
    intros r0 oc0 Hin F; try discriminate.
  - destruct Hin.
  - destruct Hin as [Heq|Hin].
    + injection Heq as _ <-. congruence.
    + exact (IH r0 oc0 Hin F).
  - split; [exact (rollback_status _ _ _ _ R)|].
    change (reverts (Print (MsgMerging (str_revision r) (plan_source p))
                       :: Call (merge_cmd p r) oc
                       :: Print (MsgMergeFailed _ (str_revision r) e)
                       :: Print MsgReverting :: rho))
      with (reverts rho).
    rewrite (reverts_rollback _ _ _ _ R).
    exact (rollback_once_or_twice _ _ _ R).
Qed.

(** C9. In the strict script on a valid plan, when the merge of a
    revision fails, the handler of the loop starts the revert; if that
    revert fails too, the handler around the loop starts the revert a
    second time, and the process ends with exit status one either way.
    The revert is started exactly once only when its first invocation
    succeeds. *)
Theorem strict_failed_revert_is_started_again
    (p : plan) (config_file : string) (o : oracle) (r : revision)
    (oc : outcome) :
  valid p ->
  In (merge_cmd p r, oc)
     (calls (snd (run Strict config_file (Holds (config_of p)) o))) ->
  succeeded oc = false ->
  status (run Strict config_file (Holds (config_of p)) o) = 1%Z /\
  exists oc1,
    (succeeded oc1 = true /\
     reverts (snd (run Strict config_file (Holds (config_of p)) o)) =
       [(revert_cmd p, oc1)]) \/
    (succeeded oc1 = false /\
     exists oc2,
       reverts (snd (run Strict config_file (Holds (config_of p)) o)) =
         [(revert_cmd p, oc1); (revert_cmd p, oc2)]).
Proof.
  intros V Hin F. unfold status.
  run_cases (run_conforms Strict p config_file o V).
  - destruct Hin as [Heq|Hin]; [discriminate Heq|].
    not_in_rollback R Hin.
  - destruct Hin as [Heq|[Heq|Hin]]; [discriminate Heq|discriminate Heq|].
    not_in_rollback R Hin.
  - destruct Hin as [Heq|[Heq|Hin]]; [discriminate Heq|discriminate Heq|].
    exact (strict_loop_failed_merge _ _ _ _ L r oc Hin F).
Qed.

Lemma strict_failed_revert_is_started_again_witness :
  valid feature_plan /\
  In (merge_cmd feature_plan (RevInt 43), conflict)
     (calls (snd (run Strict "config.json" (Holds (config_of feature_plan))
                    second_merge_and_next_fail))) /\
  succeeded conflict = false /\
  status (run Strict "config.json" (Holds (config_of feature_plan))
            second_merge_and_next_fail) = 1%Z.
Proof.
  assert (Hin : In (merge_cmd feature_plan (RevInt 43), conflict)
     (calls (snd (run Strict "config.json" (Holds (config_of feature_plan))
                    second_merge_and_next_fail)))).
  { vm_compute. right; right; right; left. reflexivity. }
  split; [exact feature_plan_valid|]. split; [exact Hin|].
  split; [reflexivity|].
  exact (proj1 (strict_failed_revert_is_started_again feature_plan
                  "config.json" second_merge_and_next_fail (RevInt 43)
                  conflict feature_plan_valid Hin eq_refl)).
Defined.

(** On the plan of the examples, when the merge of the second revision
    and the revert that follows both fail, the strict script starts the
    revert twice. *)
Example strict_reverts_twice :
  reverts (snd (run Strict "config.json" (Holds (config_of feature_plan))
                  second_merge_and_next_fail)) =
  [(revert_cmd feature_plan, conflict); (revert_cmd feature_plan, done)].
Proof. reflexivity. Qed.

(** In the interactive script, when the tool is not found or exits with a
    code other than zero, the run rolls back. *)
Lemma loop_tool_failure p revs delta res :
  loop_shape p Interactive revs delta res ->
  forall oc,
    In (tortoise_cmd p, oc) (calls delta) -> tool_failed oc = true ->
    exit_status res = 1%Z /\
    exists oc1 rest,
      reverts delta = (revert_cmd p, oc1) :: rest /\
      (succeeded oc1 = true -> rest = [] /\ res = Raise (SystemExit 1)).
Proof.
  intros L; loop_induction L;
    intros oc0 Hin F.
  - destruct Hin.
  - destruct Hin as [Heq|Hin]; [discriminate Heq|]. exact (IH oc0 Hin F).
  - destruct Hin as [Heq|Hin]; [discriminate Heq|].
    not_in_rollback R Hin.
  - destruct Hin as [Heq|[Heq|Hin]]; [discriminate Heq| |exact (IH oc0 Hin F)].
    injection Heq as <-. apply tool_failed_failed in F. congruence.
  - split; [exact (rollback_status _ _ _ _ R)|].
    change (exists oc1 rest, reverts (Print notice :: rho) =
              (revert_cmd p, oc1) :: rest /\
              (succeeded oc1 = true -> rest = [] /\ res = Raise (SystemExit 1))).
    change (reverts (Print notice :: rho)) with (reverts rho).
    rewrite (reverts_rollback _ _ _ _ R).
    exact (rollback_first _ _ _ _ R).
  - destruct Hin as [Heq|[Heq|Hin]]; [discriminate Heq| |].
    + injection Heq as <-. discriminate.
    + not_in_rollback R Hin.
Qed.

(** C10. In the interactive script on a valid plan, when the interactive
    tool is not found or exits with a code other than zero, the revert is
    started and the process ends with exit status one; when that revert
    succeeds it is the only one of the run, and [main] is left by the
    [SystemExit] of [existWithError], which no handler of [main] catches. *)
Theorem interactive_tool_failure_reverts_once
    (p : plan) (config_file : string) (o : oracle) (oc : outcome) :
  valid p ->
  In (tortoise_cmd p, oc)
     (calls (snd (run Interactive config_file (Holds (config_of p)) o))) ->
  tool_failed oc = true ->
  status (run Interactive config_file (Holds (config_of p)) o) = 1%Z /\
  exists oc1 rest,
    reverts (snd (run Interactive config_file (Holds (config_of p)) o)) =
      (revert_cmd p, oc1) :: rest /\
    (succeeded oc1 = true ->
     rest = [] /\
     fst (run Interactive config_file (Holds (config_of p)) o) =
       Raise (SystemExit 1)).
Proof.
  intros V Hin F. unfold status.
  run_cases (run_conforms Interactive p config_file o V).
  - destruct Hin as [Heq|Hin]; [discriminate Heq|].
    not_in_rollback R Hin.
  - destruct Hin as [Heq|[Heq|Hin]]; [discriminate Heq|discriminate Heq|].
    not_in_rollback R Hin.
  - destruct Hin as [Heq|[Heq|Hin]]; [discriminate Heq|discriminate Heq|].
    exact (loop_tool_failure _ _ _ _ L oc Hin F).
Qed.

Lemma interactive_tool_failure_reverts_once_witness :
  valid feature_plan /\
  In (tortoise_cmd feature_plan, NotFound)
     (calls (snd (run Interactive "config.json"
                    (Holds (config_of feature_plan))
                    second_merge_fails_no_tool))) /\
  tool_failed NotFound = true /\
  status (run Interactive "config.json" (Holds (config_of feature_plan))
            second_merge_fails_no_tool) = 1%Z.
Proof.
  assert (Hin : In (tortoise_cmd feature_plan, NotFound)
     (calls (snd (run Interactive "config.json"
                    (Holds (config_of feature_plan))
                    second_merge_fails_no_tool)))).
  { vm_compute. do 4 right. left. reflexivity. }
  split; [exact feature_plan_valid|]. split; [exact Hin|].
  split; [reflexivity|].
  exact (proj1 (interactive_tool_failure_reverts_once feature_plan
                  "config.json" second_merge_fails_no_tool NotFound
                  feature_plan_valid Hin eq_refl)).
Defined.

(** With the tool missing and a revert that succeeds, the interactive
    script starts the revert once. *)
Example interactive_reverts_once :
  reverts (snd (run Interactive "config.json" (Holds (config_of feature_plan))
                  second_merge_fails_no_tool)) =
  [(revert_cmd feature_plan, done)].
Proof. reflexivity. Qed.

(** *** Further properties of the functions *)


(** X2. The check of [main] refuses exactly the incomplete configurations:
    a script that was given a configuration starts no process if and only
    if one of the three strings is absent or empty or the list of
    revisions is absent or empty; otherwise its first process is the
    switch to the target branch, run in the working directory. *)
Theorem no_process_exactly_when_incomplete
    (v : variant) (config_file : string) (c : config) (o : oracle) :
  (calls (snd (run v config_file (Holds c) o)) = [] <-> incomplete c) /\
  (~ incomplete c ->
   exists oc rest,
     calls (snd (run v config_file (Holds c) o)) =
       (Invocation ["svn"; "switch"; as_str (target_branch c)]
          (Some (as_str (working_dir c))), oc) :: rest).
Proof.
  assert (Hstart : accepted c = true ->
    exists oc rest,
     calls (snd (run v config_file (Holds c) o)) =
       (Invocation ["svn"; "switch"; as_str (target_branch c)]
          (Some (as_str (working_dir c))), oc) :: rest).
  { intros A. destruct (accepted_plan c A) as (p & V & ->).
    destruct (run_conforms v p config_file o V); simpl; eauto. }
  assert (Hinc : accepted c = false -> incomplete c).
  { unfold incomplete, missing, accepted, get_revisions.
    destruct c as [[s|] [t|] [w|] [l|]]; simpl; auto 6.
    destruct s; simpl; auto. destruct t; simpl; auto 6.
    destruct w; simpl; auto 6. destruct l; simpl; auto 6. discriminate. }
  split; [split|].
  - intros Hc. destruct (accepted c) eqn:A; [|auto].
    destruct (Hstart eq_refl) as (oc & rest & E). rewrite E in Hc. discriminate.
  - intros H. now rewrite (run_refused v config_file c o (incomplete_refused c H)).
  - intros H. destruct (accepted c) eqn:A; [auto|]. destruct (H (Hinc eq_refl)).
Qed.

(** X3. [run_command] starts exactly one process, with the command and
    the directory it was given, and adds nothing else to the trace.  It
    returns if and only if that process exits with the code zero, and
    then returns the standard output of the process as Python reads it in
    text mode, a carriage return with or without a line feed after it
    having become a line feed, with the white space around it removed. *)
Theorem run_command_returns_stripped_output
    (command : list string) (cwd : option string) (o : oracle) (t : trace) :
  snd (SVNMerge.run_command command cwd o t) =
    t ++ [Call (Invocation command cwd) (o (length (calls t)))] /\
  (forall s,
     fst (SVNMerge.run_command command cwd o t) = Return s <->
     exists out err,
       o (length (calls t)) = Exited 0 out err /\
       s = strip (universal_newlines out)).
Proof.
  rewrite run_command_eq. split; [reflexivity|]. intros s. simpl.
  unfold command_result, captured.
  destruct (o (length (calls t))) as [rc out err| |].
  - destruct (Z.eqb_spec rc 0) as [->|Hrc].
    + split.
      * intros H. injection H as <-. eauto.
      * intros (out' & err' & H & ->). injection H as <- _. reflexivity.
    + split; [discriminate|].
      intros (out' & err' & H & _). injection H as -> _ _. congruence.
  - split; [discriminate|]. intros (? & ? & H & _). discriminate.
  - split; [discriminate|]. intros (? & ? & H & _). discriminate.
Qed.

(** The line ends inside the output are translated, those around it are
    stripped: of [  r10\r\nr11\rr12\r\n] the function returns
    [r10\nr11\nr12]. *)
Example run_command_translates_line_ends :
  fst (SVNMerge.run_command ["svn"; "log"] None
         (fun _ => Exited 0 ("  r10" ++ cr ++ nl ++ "r11" ++ cr ++ "r12"
                               ++ cr ++ nl)%string "")
         []) =
  Return ("r10" ++ nl ++ "r11" ++ nl ++ "r12")%string.
Proof. reflexivity. Qed.

(** X4. What [run_command] raises: a [RuntimeError] exactly when the
    process exited with a code other than zero; when the program cannot
    be found or started, the [FileNotFoundError] or [OSError] of
    [subprocess.run] is let through as it is.  It never raises
    [SystemExit] or [CalledProcessError], so an [except Exception] around
    it catches whatever it raises. *)
Theorem run_command_raises
    (command : list string) (cwd : option string) (o : oracle) (t : trace)
    (e : exn) :
  fst (SVNMerge.run_command command cwd o t) = Raise e ->
  is_Exception e = true /\
  ((exists m, e = RuntimeError m) <->
   exited_nonzero (o (length (calls t))) = true) /\
  (e = FileNotFoundError <-> o (length (calls t)) = NotFound) /\
  (e = OSError <-> o (length (calls t)) = CannotStart) /\
  (forall rc cmd so se, e <> CalledProcessError rc cmd so se).
Proof.
  rewrite run_command_eq. simpl. unfold command_result.
  destruct (o (length (calls t))) as [rc out err| |]; simpl.
  - destruct (rc =? 0)%Z; [discriminate|]. intros H. injection H as <-.
    repeat split; try discriminate; eauto.
  - intros H. injection H as <-.
    repeat split; try discriminate; auto. intros (m & H). discriminate.
  - intros H. injection H as <-.
    repeat split; try discriminate; auto. intros (m & H). discriminate.
Qed.

Lemma run_command_raises_witness :
  fst (SVNMerge.run_command ["svn"; "update"] (Some "/wc")
         (fun _ => NotFound) []) = Raise FileNotFoundError /\
  is_Exception FileNotFoundError = true.
Proof.
  split; [reflexivity|].
  exact (proj1 (run_command_raises ["svn"; "update"] (Some "/wc")
                  (fun _ => NotFound) [] FileNotFoundError eq_refl)).
Defined.

(** X5. [existWithError] never returns.  It starts the revert, once, in
    the working directory; it raises [SystemExit] with the code one
    exactly when the revert succeeded, and otherwise lets out the error
    of the revert, which is an [Exception] that the handlers of [main]
    catch. *)
Theorem existWithError_never_returns
    (working_dir : string) (o : oracle) (t : trace) :
  exists e,
    fst (SVMMergeWithTortoise.existWithError (A:=unit) working_dir o t) =
      Raise e /\
    (e = SystemExit 1 <-> succeeded (o (length (calls t))) = true) /\
    (succeeded (o (length (calls t))) = false -> is_Exception e = true) /\
    calls (snd (SVMMergeWithTortoise.existWithError (A:=unit) working_dir o t))
    = calls t ++
      [(Invocation ["svn"; "revert"; "-R"; "."] (Some working_dir),
        o (length (calls t)))].
Proof.
  pose (p := Plan "" "" working_dir []).
  change (SVMMergeWithTortoise.existWithError (A:=unit) working_dir)
    with (revert_exit p).
  rewrite revert_exit_eq. simpl fst. simpl snd. rewrite calls_app.
  destruct (rolled_back_cases (o (length (calls t))))
    as [[E ->]|[E (e & -> & He)]].
  - exists (SystemExit 1). repeat split; auto. congruence.
  - exists e. repeat split; auto.
    + intros ->. discriminate.
    + congruence.
Qed.

Lemma revert_exit_raises p o t : fst (revert_exit p o t) <> Return tt.
Proof.
  rewrite revert_exit_eq. simpl. unfold rolled_back.
  destruct (succeeded _); discriminate.
Qed.

(** The tool returns exactly when it exits with zero. *)
Lemma resolve_returns p o t :
  fst (SVMMergeWithTortoise.svn_resolve_with_tortoise (plan_dir p) o t) =
    Return tt <->
  succeeded (o (length (calls t))) = true.
Proof.
  rewrite resolve_eq.
  destruct (o (length (calls t))) as [rc out err| |]; simpl.
  - destruct (rc =? 0)%Z; simpl; [tauto|].
    split; [intros H; destruct (revert_exit_raises _ _ _ H)|discriminate].
  - split; [intros H; destruct (revert_exit_raises _ _ _ H)|discriminate].
  - split; discriminate.
Qed.

(** X6. [svn_resolve_with_tortoise] first starts [TortoiseProc.exe] with
    [/command:resolve] and the path of the working copy, in no directory
    of its own.  It returns if and only if the tool exits with zero, and
    then starts nothing else.  When the tool is not found or exits with
    another code it starts the revert, once.  Any other failure to start
    the tool is not caught here: the [OSError] goes out with no revert
    started by this function. *)
Theorem svn_resolve_with_tortoise_outcomes
    (working_dir : string) (o : oracle) (t : trace) :
  (fst (SVMMergeWithTortoise.svn_resolve_with_tortoise working_dir o t) =
     Return tt <->
   succeeded (o (length (calls t))) = true) /\
  exists rest,
    calls (snd (SVMMergeWithTortoise.svn_resolve_with_tortoise working_dir o t))
    = calls t ++
      (Invocation
         ["TortoiseProc.exe"; "/command:resolve";
          ("/path:" ++ working_dir)%string] None,
       o (length (calls t))) :: rest /\
    (succeeded (o (length (calls t))) = true -> rest = []) /\
    (o (length (calls t)) = CannotStart ->
     rest = [] /\
     fst (SVMMergeWithTortoise.svn_resolve_with_tortoise working_dir o t) =
       Raise OSError) /\
    (tool_failed (o (length (calls t))) = true ->
     rest = [(Invocation ["svn"; "revert"; "-R"; "."] (Some working_dir),
              o (S (length (calls t))))]).
Proof.
  pose (p := Plan "" "" working_dir []).
  change (SVMMergeWithTortoise.svn_resolve_with_tortoise working_dir)
    with (SVMMergeWithTortoise.svn_resolve_with_tortoise (plan_dir p)).
  split; [apply resolve_returns|].
  rewrite resolve_eq.
  destruct (o (length (calls t))) as [rc out err| |] eqn:T.
  - destruct (rc =? 0)%Z eqn:Z.
    + exists []. simpl snd. rewrite calls_app. simpl.
      rewrite Z. repeat split; try discriminate.
    + rewrite revert_exit_eq.
      eexists. simpl snd. rewrite !calls_app, <- app_assoc. simpl.
      rewrite Z. split; [reflexivity|].
      split; [discriminate|]. split; [discriminate|]. intros _.
      rewrite length_app. simpl. now rewrite Nat.add_1_r.
  - rewrite revert_exit_eq.
    eexists. simpl snd. rewrite !calls_app, <- app_assoc. simpl.
    split; [reflexivity|].
    split; [discriminate|]. split; [discriminate|]. intros _.
    rewrite length_app. simpl. now rewrite Nat.add_1_r.
  - exists []. simpl snd. rewrite calls_app. simpl.
    repeat split; discriminate.
Qed.

(** X7. In the strict script [svn_merge] returns if and only if the merge
    succeeds.  In the interactive script it also returns when the merge
    exits with a code other than zero and the interactive tool, started
    next, exits with zero: the failure of the merge is then not reported
    to the caller. *)
Theorem svn_merge_returns
    (revision source_branch working_dir : string) (o : oracle) (t : trace) :
  (fst (SVNMerge.svn_merge revision source_branch working_dir o t) =
     Return tt <->
   succeeded (o (length (calls t))) = true) /\
  (fst (SVMMergeWithTortoise.svn_merge revision source_branch working_dir o t)
     = Return tt <->
   succeeded (o (length (calls t))) = true \/
   (exited_nonzero (o (length (calls t))) = true /\
    succeeded (o (S (length (calls t)))) = true)).
Proof.
  pose (p := Plan source_branch "" working_dir []).
  split.
  - change (SVNMerge.svn_merge revision source_branch working_dir)
      with (SVNMerge.svn_merge (str_revision (RevStr revision))
              (plan_source p) (plan_dir p)).
    rewrite strict_svn_merge_eq. simpl. unfold vcs_result.
    destruct (succeeded _); split; auto; discriminate.
  - change (SVMMergeWithTortoise.svn_merge revision source_branch working_dir)
      with (SVMMergeWithTortoise.svn_merge (str_revision (RevStr revision))
              (plan_source p) (plan_dir p)).
    rewrite interactive_svn_merge_eq.
    destruct (succeeded (o (length (calls t)))) eqn:E; [simpl; tauto|].
    destruct (exited_nonzero (o (length (calls t)))) eqn:N.
    2:{ simpl. split; [discriminate|]. intros [H|[H _]]; discriminate. }
    rewrite resolve_returns, calls_app. simpl. rewrite length_app. simpl.
    rewrite Nat.add_1_r.
    split; [auto|]. intros [H|[_ H]]; [discriminate|exact H].
Qed.

(** *** Further properties of the runs *)

Lemma revert_chain_length p l : forall n,
  revert_chain p l n -> length l <= S n.
Proof.
  induction l as [|[c oc] l IH]; intros n; simpl; [tauto|].
  intros [-> H].
  destruct (succeeded oc); [subst; simpl; lia|].
  destruct n; [subst; simpl; lia|]. specialize (IH n H). lia.
Qed.

Lemma rollback_length p n rho res :
  rollback p n rho res -> length (reverts rho) <= S n.
Proof.
  intros R. rewrite (reverts_rollback _ _ _ _ R).
  exact (revert_chain_length _ _ _ (rollback_chain _ _ _ _ R)).
Qed.

Lemma loop_reverts_bound p v revs delta res :
  loop_shape p v revs delta res -> length (reverts delta) <= most_reverts v.
Proof.
  intros L; loop_induction L; try subst v; simpl most_reverts in *.
  - simpl. lia.
  - exact IH.
  - pose proof (rollback_length _ _ _ _ R) as B.
    change (length (reverts rho) <= most_reverts v). destruct v; simpl; lia.
  - exact IH.
  - exact (rollback_length _ _ _ _ R).
  - pose proof (rollback_length _ _ _ _ R) as B.
    change (length (reverts rho) <= 3). lia.
Qed.

Lemma reverts_bounded_loaded v config_file c o :
  length (reverts (snd (run v config_file (Holds c) o))) <= most_reverts v.
Proof.
  destruct (accepted c) eqn:A.
  2:{ rewrite (run_refused v config_file c o A). apply Nat.le_0_l. }
  destruct (accepted_plan c A) as (p & V & ->).
  run_cases (run_conforms v p config_file o V).
  - pose proof (rollback_length _ _ _ _ R) as B.
    change (length (reverts rho) <= most_reverts v). destruct v; simpl; lia.
  - pose proof (rollback_length _ _ _ _ R) as B.
    change (length (reverts rho) <= most_reverts v). destruct v; simpl; lia.
  - exact (loop_reverts_bound _ _ _ _ _ L).
Qed.

(** X8. A script never starts the revert more often than it has handlers
    on the way out: at most twice in the strict script and at most three
    times in the interactive one, whatever the configuration and whatever
    the processes answer. *)
Theorem reverts_are_bounded
    (v : variant) (config_file : string) (disk : file_state) (o : oracle) :
  length (reverts (snd (run v config_file disk o))) <= most_reverts v.
Proof.
  destruct disk as [| | |e| |c]; [| | | | |apply reverts_bounded_loaded];
    match goal with
    | |- context [run v config_file ?d o] =>
        destruct (run_not_loaded v config_file o d I) as (_ & C & _)
    end;
    unfold reverts; rewrite C; apply Nat.le_0_l.
Qed.

(** Both bounds are reached. *)
Example reverts_bounds_reached :
  length (reverts (snd (run Strict "config.json"
                          (Holds (config_of feature_plan))
                          fails_from_second_merge))) = 2 /\
  length (reverts (snd (run Interactive "config.json"
                          (Holds (config_of feature_plan))
                          fails_from_second_merge))) = 3.
Proof. split; reflexivity. Qed.

Lemma rollback_forall p n rho res (P : call -> Prop) :
  rollback p n rho res ->
  (forall oc, P (revert_cmd p, oc)) ->
  Forall P (calls rho).
Proof.
  intros R H. apply Forall_forall. intros [c oc] Hin.
  rewrite (rollback_calls_revert _ _ _ _ _ _ R Hin). apply H.
Qed.

(** The commands a script may start on a plan. *)
Lemma loop_commands p v revs delta res :
  loop_shape p v revs delta res ->
  Forall (fun c =>
            fst c = revert_cmd p \/
            (exists r, In r revs /\ fst c = merge_cmd p r) \/
            (v = Interactive /\ fst c = tortoise_cmd p))
         (calls delta).
Proof.
  intros L; loop_induction L; simpl calls;
    repeat (constructor; [simpl; eauto 6|]);
    try (apply (rollback_forall _ _ _ _ _ R); simpl; auto).
  - constructor.
  - revert IH. apply Forall_impl. intros c [G|[(r' & Hr & G)|G]]; simpl; eauto 6.
  - revert IH. apply Forall_impl. intros c [G|[(r' & Hr & G)|G]]; simpl; eauto 6.
Qed.

(** X9. The only processes a script starts are those of its plan: the
    switch to the target branch, the update, the merge of a revision of
    the list from the source branch with [--accept theirs-full], the
    revert and, in the interactive script only, the interactive tool.
    Every command of the client runs in the working directory.  Nothing
    is ever committed. *)
Theorem only_the_commands_of_the_plan
    (v : variant) (p : plan) (config_file : string) (o : oracle) :
  Forall (fun c =>
            fst c = switch_cmd p \/ fst c = update_cmd p \/
            fst c = revert_cmd p \/
            (exists r, In r (plan_revisions p) /\ fst c = merge_cmd p r) \/
            (v = Interactive /\ fst c = tortoise_cmd p))
         (calls (snd (run v config_file (Holds (config_of p)) o))).
Proof.
  destruct (accepted (config_of p)) eqn:A.
  2:{ rewrite (run_refused v config_file _ o A). constructor. }
  run_cases (run_conforms v p config_file o (accepted_config_of p A));
    simpl calls; repeat (constructor; [simpl; auto|]).
  - apply (rollback_forall _ _ _ _ _ R). simpl. auto.
  - apply (rollback_forall _ _ _ _ _ R). simpl. auto.
  - pose proof (loop_commands _ _ _ _ _ L) as F. revert F.
    apply Forall_impl. intros c [G|[G|G]]; auto 6.
Qed.

(** X10. Nothing is merged, and the interactive tool is not started,
    before both the switch and the update have succeeded: when a run
    starts a merge or the tool, its first two processes are the switch
    and the update, and both exited with zero. *)
Theorem merges_only_after_switch_and_update
    (v : variant) (p : plan) (config_file : string) (o : oracle)
    (c : invocation) (oc : outcome) :
  In (c, oc) (calls (snd (run v config_file (Holds (config_of p)) o))) ->
  is_merge c = true \/ c = tortoise_cmd p ->
  exists sw up rest,
    calls (snd (run v config_file (Holds (config_of p)) o)) =
      (switch_cmd p, sw) :: (update_cmd p, up) :: rest /\
    succeeded sw = true /\ succeeded up = true.
Proof.
  intros Hin Hc.
  destruct (accepted (config_of p)) eqn:A.
  2:{ rewrite (run_refused v config_file _ o A) in Hin. destruct Hin. }
  run_cases (run_conforms v p config_file o (accepted_config_of p A)).
  - exfalso. destruct Hin as [Heq|Hin].
    + injection Heq as <- _. destruct Hc as [Hc|Hc]; discriminate Hc.
    + rewrite (rollback_calls_revert _ _ _ _ _ _ R Hin) in Hc.
      destruct Hc as [Hc|Hc]; discriminate Hc.
  - exfalso. destruct Hin as [Heq|[Heq|Hin]].
    + injection Heq as <- _. destruct Hc as [Hc|Hc]; discriminate Hc.
    + injection Heq as <- _. destruct Hc as [Hc|Hc]; discriminate Hc.
    + rewrite (rollback_calls_revert _ _ _ _ _ _ R Hin) in Hc.
      destruct Hc as [Hc|Hc]; discriminate Hc.
  - exists sw, up, (calls delta). auto.
Qed.

Lemma merges_only_after_switch_and_update_witness :
  In (merge_cmd feature_plan (RevInt 42), done)
     (calls (snd (run Strict "config.json" (Holds (config_of feature_plan))
                    second_merge_fails))) /\
  (is_merge (merge_cmd feature_plan (RevInt 42)) = true \/
   merge_cmd feature_plan (RevInt 42) = tortoise_cmd feature_plan) /\
  exists sw up rest,
    calls (snd (run Strict "config.json" (Holds (config_of feature_plan))
                  second_merge_fails)) =
      (switch_cmd feature_plan, sw) :: (update_cmd feature_plan, up) :: rest /\
    succeeded sw = true /\ succeeded up = true.
Proof.
  assert (Hin : In (merge_cmd feature_plan (RevInt 42), done)
     (calls (snd (run Strict "config.json" (Holds (config_of feature_plan))
                    second_merge_fails)))).
  { vm_compute. right; right; left. reflexivity. }
  split; [exact Hin|]. split; [left; reflexivity|].
  exact (merges_only_after_switch_and_update Strict feature_plan "config.json"
           second_merge_fails _ _ Hin (or_introl eq_refl)).
Defined.

Lemma rollback_follows_failure p n rho res :
  rollback p n rho res -> follows_failure true (calls rho) = true.
Proof.
  induction 1 as [n oc E|oc e E He|n oc b rho res E Hb R IH]; simpl.
  - reflexivity.
  - reflexivity.
  - rewrite E. exact IH.
Qed.

Lemma loop_follows_failure p v revs delta res :
  loop_shape p v revs delta res ->
  forall b, follows_failure b (calls delta) = true.
Proof.
  intros L; loop_induction L; intros b; simpl.
  - reflexivity.
  - apply IH.
  - rewrite E. exact (rollback_follows_failure _ _ _ _ R).
  - apply IH.
  - rewrite (tool_failed_failed _ T).
    exact (rollback_follows_failure _ _ _ _ R).
  - exact (rollback_follows_failure _ _ _ _ R).
Qed.

Lemma run_follows_failure p v t res :
  run_shape p v t res -> follows_failure false (calls t) = true.
Proof.
  intros S; run_cases S; simpl.
  - rewrite E. exact (rollback_follows_failure _ _ _ _ R).
  - rewrite E'. exact (rollback_follows_failure _ _ _ _ R).
  - exact (loop_follows_failure _ _ _ _ _ L _).
Qed.

(** Reading [follows_failure] at one revert of the list. *)
Lemma follows_failure_at l : forall b pre c oc post,
  follows_failure b l = true ->
  l = pre ++ (c, oc) :: post ->
  is_revert c = true ->
  (pre = [] /\ b = true) \/
  (exists pre' c' oc', pre = pre' ++ [(c', oc')] /\ succeeded oc' = false).
Proof.
  induction l as [|[c0 oc0] l IH]; intros b pre c oc post F E Hc.
  - destruct pre; discriminate.
  - simpl in F. apply andb_prop in F. destruct F as [F1 F2].
    destruct pre as [|x pre]; simpl in E.
    + left. split; [reflexivity|].
      assert (c0 = c) as -> by congruence.
      now rewrite Hc in F1.
    + right. assert (x = (c0, oc0)) as -> by congruence.
      assert (E2 : l = pre ++ (c, oc) :: post) by congruence.
      destruct (IH _ _ _ _ _ F2 E2 Hc) as [[-> G]|(pre' & c' & oc' & -> & G)].
      * exists [], c0, oc0. split; [reflexivity|].
        now destruct (succeeded oc0).
      * exists ((c0, oc0) :: pre'), c', oc'. split; [reflexivity|exact G].
Qed.

(** X11. A revert is only ever started right after a process that failed:
    in a run of either script, the process started just before a revert
    (an operation of the plan, the interactive tool, or an earlier
    revert) did not exit with zero. *)
Theorem every_revert_follows_a_failure
    (v : variant) (p : plan) (config_file : string) (o : oracle)
    (pre post : list call) (oc : outcome) :
  calls (snd (run v config_file (Holds (config_of p)) o)) =
    pre ++ (revert_cmd p, oc) :: post ->
  exists pre' c' oc',
    pre = pre' ++ [(c', oc')] /\ succeeded oc' = false.
Proof.
  intros E.
  destruct (accepted (config_of p)) eqn:A.
  2:{ rewrite (run_refused v config_file _ o A) in E.
      destruct pre; discriminate. }
  pose proof (run_follows_failure _ _ _ _
                (run_conforms v p config_file o (accepted_config_of p A))) as F.
  destruct (follows_failure_at _ _ _ _ _ _ F E eq_refl) as [[_ G]|G];
    [discriminate|exact G].
Qed.

Lemma every_revert_follows_a_failure_witness :
  calls (snd (run Strict "config.json" (Holds (config_of feature_plan))
                second_merge_fails)) =
    [(switch_cmd feature_plan, done); (update_cmd feature_plan, done);
     (merge_cmd feature_plan (RevInt 42), done);
     (merge_cmd feature_plan (RevInt 43), conflict)]
    ++ (revert_cmd feature_plan, done) :: [] /\
  exists pre' c' oc',
    [(switch_cmd feature_plan, done); (update_cmd feature_plan, done);
     (merge_cmd feature_plan (RevInt 42), done);
     (merge_cmd feature_plan (RevInt 43), conflict)] = pre' ++ [(c', oc')] /\
    succeeded oc' = false.
Proof.
  split; [reflexivity|].
  exact (every_revert_follows_a_failure Strict feature_plan "config.json"
           second_merge_fails
           [(switch_cmd feature_plan, done); (update_cmd feature_plan, done);
            (merge_cmd feature_plan (RevInt 42), done);
            (merge_cmd feature_plan (RevInt 43), conflict)]
           [] done eq_refl).
Defined.

Lemma rollback_not_completed p n rho res :
  rollback p n rho res -> ~ In MsgAllProcessed (printed rho).
Proof.
  induction 1 as [n oc E|oc e E He|n oc b rho res E Hb R IH]; simpl.
  - intros [H|[]]; discriminate.
  - intros [H|[]]; discriminate.
  - intros [H|[H|[H|H]]]; try discriminate; [|exact (IH H)].
    subst b. discriminate.
Qed.

Lemma loop_completed p v revs delta res :
  loop_shape p v revs delta res ->
  In MsgAllProcessed (printed delta) <-> res = Return tt.
Proof.
  intros L; loop_induction L; simpl;
    try (split;
         [ intros G; exfalso;
           repeat (destruct G as [G|G]; [try discriminate|]);
           try (subst notice; discriminate I);
           exact (rollback_not_completed _ _ _ _ R G)
         | intros ->; destruct (rollback_raises _ _ _ _ R); discriminate ]).
  - split; auto.
  - rewrite <- IH. split; [|auto].
    intros G. repeat (destruct G as [G|G]; [discriminate|]). exact G.
  - rewrite <- IH. split; [|auto 8].
    intros G. repeat (destruct G as [G|G]; [discriminate|]). exact G.
Qed.

Lemma completed_loaded v config_file c o :
  In MsgAllProcessed (printed (snd (run v config_file (Holds c) o))) <->
  status (run v config_file (Holds c) o) = 0%Z.
Proof.
  destruct (accepted c) eqn:A.
  2:{ rewrite (run_refused v config_file c o A). simpl.
      split; [intros [H|[]]; discriminate|discriminate]. }
  destruct (accepted_plan c A) as (p & V & ->). unfold status.
  pose proof (run_conforms v p config_file o V) as S.
  assert (Z : exit_status (fst (run v config_file (Holds (config_of p)) o))
              = 0%Z <->
              fst (run v config_file (Holds (config_of p)) o) = Return tt).
  { split; [exact (status_zero_returns _ _ _ _ S)|now intros ->]. }
  rewrite Z. clear Z. run_cases S; simpl.
  - split.
    + intros G. exfalso. repeat (destruct G as [G|G]; [discriminate|]).
      exact (rollback_not_completed _ _ _ _ R G).
    + intros ->. destruct (rollback_raises _ _ _ _ R); discriminate.
  - split.
    + intros G. exfalso. repeat (destruct G as [G|G]; [discriminate|]).
      exact (rollback_not_completed _ _ _ _ R G).
    + intros ->. destruct (rollback_raises _ _ _ _ R); discriminate.
  - rewrite <- (loop_completed _ _ _ _ _ L). split; [|auto].
    intros G. repeat (destruct G as [G|G]; [discriminate|]). exact G.
Qed.

(** X12. A script prints that all revisions were processed if and only if
    it ends with exit status zero: the line is never printed by a run
    that fails, and always by one that succeeds. *)
Theorem all_processed_printed_exactly_on_success
    (v : variant) (config_file : string) (disk : file_state) (o : oracle) :
  In MsgAllProcessed (printed (snd (run v config_file disk o))) <->
  status (run v config_file disk o) = 0%Z.
Proof.
  destruct disk as [| | |e| |c]; [| | | | |apply completed_loaded];
    destruct v; simpl;
    (split; [intros H; repeat destruct H as [H|H]; try discriminate;
             destruct H
            |discriminate]).
Qed.

Lemma rollback_calls_length p n rho res :
  rollback p n rho res -> length (calls rho) <= S n.
Proof.
  intros R. exact (revert_chain_length _ _ _ (rollback_chain _ _ _ _ R)).
Qed.

(** What follows an operation whose failure leads to a rollback under [n]
    enclosing handlers. *)
Lemma rollback_aftermath p n rho res :
  rollback p n rho res ->
  exit_status res = 1%Z /\ calls rho <> [] /\
  Forall (fun c => fst c = revert_cmd p) (calls rho) /\
  length (calls rho) <= S n.
Proof.
  intros R. split; [exact (rollback_status _ _ _ _ R)|].
  split; [|split].
  - destruct (rollback_first _ _ _ _ R) as (oc1 & rest & -> & _). discriminate.
  - apply (rollback_forall _ _ _ _ _ R). reflexivity.
  - exact (rollback_calls_length _ _ _ _ R).
Qed.

Lemma loop_strict_merged p revs delta res :
  loop_shape p Strict revs delta res ->
  merged delta =
  map revision_of (filter (fun c => succeeded (snd c)) (merges delta)).
Proof.
  intros L; loop_induction L; try discriminate.
  - reflexivity.
  - change (str_revision r :: merged delta =
            map revision_of
              (filter (fun c => succeeded (snd c))
                 ((merge_cmd p r, oc) :: merges delta))).
    simpl filter. rewrite E. simpl map. now rewrite IH.
  - change (merged rho =
            map revision_of
              (filter (fun c => succeeded (snd c))
                 ((merge_cmd p r, oc) :: merges rho))).
    simpl filter. rewrite E. unfold merges.
    rewrite (rollback_no_merge _ _ _ _ R), (rollback_merged _ _ _ _ R).
    reflexivity.
Qed.

(** X13. The strict script reports as merged exactly the revisions whose
    merge exited with zero, in the order of the merges: no success line
    for a merge that failed, and none missing for one that succeeded. *)
Theorem strict_reports_exactly_the_successful_merges
    (config_file : string) (disk : file_state) (o : oracle) :
  let t := snd (run Strict config_file disk o) in
  merged t =
  map revision_of (filter (fun c => succeeded (snd c)) (merges t)).
Proof.
  destruct disk as [| | |e| |c]; try reflexivity.
  destruct (accepted c) eqn:A.
  2:{ rewrite (run_refused Strict config_file c o A). reflexivity. }
  destruct (accepted_plan c A) as (p & V & ->).
  run_cases (run_conforms Strict p config_file o V).
  - change (merged rho =
            map revision_of
              (filter (fun c => succeeded (snd c)) (merges rho))).
    unfold merges.
    rewrite (rollback_no_merge _ _ _ _ R), (rollback_merged _ _ _ _ R).
    reflexivity.
  - change (merged rho =
            map revision_of
              (filter (fun c => succeeded (snd c)) (merges rho))).
    unfold merges.
    rewrite (rollback_no_merge _ _ _ _ R), (rollback_merged _ _ _ _ R).
    reflexivity.
  - exact (loop_strict_merged _ _ _ _ L).
Qed.

Lemma loop_merge_not_started p revs delta res :
  loop_shape p Interactive revs delta res ->
  forall pre r oc post,
    calls delta = pre ++ (merge_cmd p r, oc) :: post ->
    oc = NotFound \/ oc = CannotStart ->
    exit_status res = 1%Z /\ post <> [] /\
    Forall (fun c => fst c = revert_cmd p) post /\ length post <= 2.
Proof.
  intros L; loop_induction L; intros pre r0 oc0 post Hc F.
  - destruct pre; discriminate.
  - uncons Hc Heq.
    + injection Heq as _ <-. destruct F; subst oc; discriminate.
    + exact (IH _ _ _ _ Hc F).
  - uncons Hc Heq.
    + exact (rollback_aftermath _ _ _ _ R).
    + not_in_rollback R Hc.
  - uncons Hc Heq.
    + injection Heq as _ <-. destruct F; subst oc; discriminate.
    + behead Hc. exact (IH _ _ _ _ Hc F).
  - uncons Hc Heq.
    + injection Heq as _ <-. destruct F; subst oc; discriminate.
    + behead Hc. not_in_rollback R Hc.
  - uncons Hc Heq.
    + injection Heq as _ <-. destruct F; subst oc; discriminate.
    + behead Hc. not_in_rollback R Hc.
Qed.

(** X14. In the interactive script a merge that could not be started (the
    client is not found, or the system refuses to start it) is not handed
    to the interactive tool, which only takes the merges that exited with
    a code other than zero: what follows is the revert, at most twice,
    and nothing else, and the run ends with exit status one. *)
Theorem interactive_merge_not_started_is_not_resolved
    (p : plan) (config_file : string) (o : oracle)
    (pre post : list call) (r : revision) (oc : outcome) :
  valid p ->
  calls (snd (run Interactive config_file (Holds (config_of p)) o)) =
    pre ++ (merge_cmd p r, oc) :: post ->
  oc = NotFound \/ oc = CannotStart ->
  status (run Interactive config_file (Holds (config_of p)) o) = 1%Z /\
  post <> [] /\
  Forall (fun c => fst c = revert_cmd p) post /\ length post <= 2.
Proof.
  intros V Hc F. unfold status.
  run_cases (run_conforms Interactive p config_file o V).
  - behead Hc. not_in_rollback R Hc.
  - behead Hc. behead Hc. not_in_rollback R Hc.
  - behead Hc. behead Hc.
    exact (loop_merge_not_started _ _ _ _ L _ _ _ _ Hc F).
Qed.

Lemma interactive_merge_not_started_is_not_resolved_witness :
  valid feature_plan /\
  status (run Interactive "config.json" (Holds (config_of feature_plan))
            second_merge_cannot_start) = 1%Z /\
  [(revert_cmd feature_plan, done)] <> [] /\
  Forall (fun c => fst c = revert_cmd feature_plan)
    [(revert_cmd feature_plan, done)] /\
  length [(revert_cmd feature_plan, done)] <= 2.
Proof.
  split; [exact feature_plan_valid|].
  exact (interactive_merge_not_started_is_not_resolved feature_plan
           "config.json" second_merge_cannot_start
           [(switch_cmd feature_plan, done); (update_cmd feature_plan, done);
            (merge_cmd feature_plan (RevInt 42), done)]
           [(revert_cmd feature_plan, done)] (RevInt 43) NotFound
           feature_plan_valid eq_refl (or_introl eq_refl)).
Defined.

Lemma loop_tool_not_started p revs delta res :
  loop_shape p Interactive revs delta res ->
  forall pre post,
    calls delta = pre ++ (tortoise_cmd p, CannotStart) :: post ->
    exit_status res = 1%Z /\ post <> [] /\
    Forall (fun c => fst c = revert_cmd p) post /\ length post <= 2.
Proof.
  intros L; loop_induction L; intros pre post Hc.
  - destruct pre; discriminate.
  - behead Hc. exact (IH _ _ Hc).
  - behead Hc. not_in_rollback R Hc.
  - behead Hc. uncons Hc Heq.
    + injection Heq as ->. discriminate.
    + exact (IH _ _ Hc).
  - behead Hc. uncons Hc Heq.
    + injection Heq as ->. discriminate.
    + not_in_rollback R Hc.
  - behead Hc. uncons Hc Heq.
    + exact (rollback_aftermath _ _ _ _ R).
    + not_in_rollback R Hc.
Qed.

(** X15. When the system refuses to start the interactive tool, with an
    error other than the tool not being found, [svn_resolve_with_tortoise]
    handles nothing and reverts nothing itself; the handlers of [main]
    still roll back: what follows is the revert, at most twice, and
    nothing else, and the run ends with exit status one. *)
Theorem interactive_tool_not_started_still_rolls_back
    (p : plan) (config_file : string) (o : oracle)
    (pre post : list call) :
  valid p ->
  calls (snd (run Interactive config_file (Holds (config_of p)) o)) =
    pre ++ (tortoise_cmd p, CannotStart) :: post ->
  status (run Interactive config_file (Holds (config_of p)) o) = 1%Z /\
  post <> [] /\
  Forall (fun c => fst c = revert_cmd p) post /\ length post <= 2.
Proof.
  intros V Hc. unfold status.
  run_cases (run_conforms Interactive p config_file o V).
  - behead Hc. not_in_rollback R Hc.
  - behead Hc. behead Hc. not_in_rollback R Hc.
  - behead Hc. behead Hc.
    exact (loop_tool_not_started _ _ _ _ L _ _ Hc).
Qed.

Lemma interactive_tool_not_started_still_rolls_back_witness :
  valid feature_plan /\
  status (run Interactive "config.json" (Holds (config_of feature_plan))
            second_merge_fails_tool_cannot_start) = 1%Z /\
  [(revert_cmd feature_plan, done)] <> [] /\
  Forall (fun c => fst c = revert_cmd feature_plan)
    [(revert_cmd feature_plan, done)] /\
  length [(revert_cmd feature_plan, done)] <= 2.
Proof.
  split; [exact feature_plan_valid|].
  exact (interactive_tool_not_started_still_rolls_back feature_plan
           "config.json" second_merge_fails_tool_cannot_start
           [(switch_cmd feature_plan, done); (update_cmd feature_plan, done);
            (merge_cmd feature_plan (RevInt 42), done);
            (merge_cmd feature_plan (RevInt 43), conflict)]
           [(revert_cmd feature_plan, done)]
           feature_plan_valid eq_refl).
Defined.

Lemma merges_extends t c oc t' :
  is_merge c = true -> In (c, oc) (merges ((t ++ [Call c oc]) ++ t')).
Proof.
  intros H. unfold merges. apply filter_In. split; [|exact H].
  rewrite !calls_app. apply in_or_app. left. apply in_or_app. right.
  left. reflexivity.
Qed.

Lemma calls_respaced t : calls (respaced_trace t) = calls t.
Proof.
  induction t as [|[m|i oc] t IH]; simpl; [reflexivity|exact IH|now rewrite IH].
Qed.

Lemma respaced_app t1 t2 :
  respaced_trace (t1 ++ t2) = respaced_trace t1 ++ respaced_trace t2.
Proof. apply map_app. Qed.

(** A handler of the interactive script does what the handler of the
    strict script does, with its own banner. *)
Lemma handler_respaced p b o t :
  handler p (respaced b) o (respaced_trace t) = respaced_run (handler p b o t).
Proof.
  rewrite !handler_eq, !revert_exit_eq. unfold respaced_run. simpl fst. simpl snd.
  rewrite !respaced_app, !calls_app, calls_respaced. reflexivity.
Qed.

Lemma caught_respaced p o x :
  caught p (MsgErrorOccurred Space) o (respaced_run x) =
  respaced_run (caught p (MsgErrorOccurred LineFeed) o x).
Proof.
  destruct x as [[[]|e] t]; [reflexivity|].
  cbv [caught respaced_run fst snd]. destruct (is_Exception e); [|reflexivity].
  exact (handler_respaced p (MsgErrorOccurred LineFeed e) o t).
Qed.

(** The loops of the two scripts agree, up to the separator of the
    banners, as long as no merge of the strict one exits with a code
    other than zero. *)
Lemma rest_agree p revs : forall o t,
  (forall c oc, In (c, oc) (merges (snd (strict_rest p revs o t))) ->
                exited_nonzero oc = false) ->
  interactive_rest p revs o (respaced_trace t) =
  respaced_run (strict_rest p revs o t).
Proof.
  induction revs as [|r rs IH]; intros o t H.
  - cbv [strict_rest interactive_rest try_except bind for_each ret print
         respaced_run]. simpl fst. simpl snd.
    now rewrite respaced_app.
  - rewrite interactive_rest_cons, interactive_merge_step_eq.
    rewrite bind_eq, interactive_svn_merge_eq, calls_respaced.
    rewrite strict_rest_cons, strict_merge_step_eq in H |- *.
    destruct (succeeded (o (length (calls t)))) eqn:E.
    + cbv [print caught step_then] in H |- *. rewrite <- app_assoc.
      cbn [app]. rewrite <- (IH o _ H). rewrite respaced_app. reflexivity.
    + match type of H with
      | context [handler p ?b o ?t'] =>
          destruct (caught_handler_rollback p (MsgErrorOccurred LineFeed) b o
                      t' (banner_error LineFeed)) as (rho & Ht & _);
          destruct (handler_rollback p b o t') as (rho0 & _ & Hr0);
          rewrite (step_then_raised _ _ _ (strict_rest p rs o) _ _ _ Hr0)
            in H |- *;
          pose proof (handler_respaced p b o t') as Hb
      end.
      assert (N : exited_nonzero (o (length (calls t))) = false).
      { rewrite Ht in H. apply (H (merge_cmd p r)).
        change (t ++ [Print (MsgMerging (str_revision r) (plan_source p));
                      Call (merge_cmd p r) (o (length (calls t)))])
          with (t ++ [Print (MsgMerging (str_revision r) (plan_source p))]
                  ++ [Call (merge_cmd p r) (o (length (calls t)))]).
        rewrite (app_assoc t). apply merges_extends. reflexivity. }
      rewrite N. cbv [caught]. rewrite command_error_is_Exception.
      rewrite respaced_app in Hb.
      change (handler p
                (MsgMergeFailed Space (str_revision r)
                   (command_error (argv (merge_cmd p r))
                      (o (length (calls t)))))
                o
                (respaced_trace t ++
                 [Print (MsgMerging (str_revision r) (plan_source p));
                  Call (merge_cmd p r) (o (length (calls t)))]) =
              respaced_run
                (handler p
                   (MsgMergeFailed LineFeed (str_revision r)
                      (command_error (argv (merge_cmd p r))
                         (o (length (calls t)))))
                   o
                   (t ++
                    [Print (MsgMerging (str_revision r) (plan_source p));
                     Call (merge_cmd p r) (o (length (calls t)))])))
        in Hb.
      rewrite Hb.
      match goal with
      | |- context [respaced_run (handler p ?b o ?t')] =>
          assert (Hr1 : rollback p 0 rho0
                          (fst (respaced_run (handler p b o t'))))
            by exact Hr0
      end.
      rewrite (step_then_raised _ _ _ (interactive_rest p rs o) _ _ _ Hr1).
      apply caught_respaced.
Qed.

(** X16. The two scripts differ only in what they do with a merge that
    exits with a code other than zero, and in the separator of the two
    lines that announce a rollback: when no merge of the strict run exits
    with such a code, the interactive script starts the same processes
    and ends the same way, and prints the same lines but for a space in
    the place of the line feed of those two, whatever else fails. *)
Theorem scripts_agree_unless_a_merge_exits_nonzero
    (config_file : string) (disk : file_state) (o : oracle) :
  (forall c oc,
     In (c, oc) (merges (snd (run Strict config_file disk o))) ->
     exited_nonzero oc = false) ->
  run Interactive config_file disk o =
  respaced_run (run Strict config_file disk o).
Proof.
  intros H. destruct disk as [| | |e| |c]; try reflexivity.
  destruct (accepted c) eqn:A.
  { destruct (accepted_plan c A) as (p & V & ->). unfold run in *.
    rewrite (interactive_main_eq p config_file o [] V), front_eq.
    rewrite (strict_main_eq p config_file o [] V), front_eq in H |- *.
    cbv zeta in H |- *.
    destruct (succeeded (o _)).
    2:{ match goal with
        | |- context [respaced_run (handler p ?b o ?t')] =>
            exact (handler_respaced p b o t')
        end. }
    destruct (succeeded (o _)).
    2:{ match goal with
        | |- context [respaced_run (handler p ?b o ?t')] =>
            exact (handler_respaced p b o t')
        end. }
    match goal with
    | |- context [respaced_run (_ _ o ?t')] =>
        exact (rest_agree p (plan_revisions p) o t' H)
    end. }
  now rewrite !run_refused.
Qed.

Lemma scripts_agree_unless_a_merge_exits_nonzero_witness :
  run Interactive "config.json" (Holds (config_of feature_plan))
    second_merge_cannot_start =
  respaced_run
    (run Strict "config.json" (Holds (config_of feature_plan))
       second_merge_cannot_start).
Proof.
  apply (scripts_agree_unless_a_merge_exits_nonzero "config.json"
           (Holds (config_of feature_plan)) second_merge_cannot_start).
  intros c oc Hin. vm_compute in Hin.
  destruct Hin as [H|[H|[]]]; inversion H; reflexivity.
Defined.

(** On that input a handler of [main] runs, and the lines of the two
    scripts differ. *)
Example scripts_banners_differ :
  snd (run Interactive "config.json" (Holds (config_of feature_plan))
         second_merge_cannot_start) <>
  snd (run Strict "config.json" (Holds (config_of feature_plan))
         second_merge_cannot_start).
Proof. vm_compute. discriminate. Qed.

Lemma loop_tool_after_merge p v revs delta res :
  loop_shape p v revs delta res ->
  forall pre oc post,
    calls delta = pre ++ (tortoise_cmd p, oc) :: post ->
    exists pre' r oc',
      pre = pre' ++ [(merge_cmd p r, oc')] /\ exited_nonzero oc' = true.
Proof.
  intros L; loop_induction L; intros pre oc0 post Hc.
  - destruct pre; discriminate.
  - behead Hc. destruct (IH _ _ _ Hc) as (pre' & r' & oc' & -> & G).
    exists ((merge_cmd p r, oc) :: pre'), r', oc'. split; [reflexivity|exact G].
  - behead Hc. not_in_rollback R Hc.
  - behead Hc. uncons Hc Heq.
    + exists [], r, oc. split; [reflexivity|exact N].
    + destruct (IH _ _ _ Hc) as (pre' & r' & oc'' & -> & G).
      exists ((merge_cmd p r, oc) :: (tortoise_cmd p, oc') :: pre'), r', oc''.
      split; [reflexivity|exact G].
  - behead Hc. uncons Hc Heq.
    + exists [], r, oc. split; [reflexivity|exact N].
    + not_in_rollback R Hc.
  - behead Hc. uncons Hc Heq.
    + exists [], r, oc. split; [reflexivity|exact N].
    + not_in_rollback R Hc.
Qed.

(** X17. The interactive tool is only ever started right after a merge
    that exited with a code other than zero: never at the start of a
    run, never after a switch, an update or a revert, never after a merge
    that succeeded or could not be started, and never twice in a row. *)
Theorem tool_only_follows_a_merge_that_exited_nonzero
    (v : variant) (p : plan) (config_file : string) (o : oracle)
    (pre post : list call) (oc : outcome) :
  calls (snd (run v config_file (Holds (config_of p)) o)) =
    pre ++ (tortoise_cmd p, oc) :: post ->
  exists pre' r oc',
    pre = pre' ++ [(merge_cmd p r, oc')] /\ exited_nonzero oc' = true.
Proof.
  intros Hc.
  destruct (accepted (config_of p)) eqn:A.
  2:{ rewrite (run_refused v config_file _ o A) in Hc.
      destruct pre; discriminate. }
  run_cases (run_conforms v p config_file o (accepted_config_of p A)).
  - behead Hc. not_in_rollback R Hc.
  - behead Hc. behead Hc. not_in_rollback R Hc.
  - behead Hc. behead Hc.
    destruct (loop_tool_after_merge _ _ _ _ _ L _ _ _ Hc)
      as (pre' & r & oc' & -> & G).
    exists ((switch_cmd p, sw) :: (update_cmd p, up) :: pre'), r, oc'.
    split; [reflexivity|exact G].
Qed.

Lemma tool_only_follows_a_merge_that_exited_nonzero_witness :
  exists pre' r oc',
    [(switch_cmd feature_plan, done); (update_cmd feature_plan, done);
     (merge_cmd feature_plan (RevInt 42), done);
     (merge_cmd feature_plan (RevInt 43), conflict)] =
      pre' ++ [(merge_cmd feature_plan r, oc')] /\
    exited_nonzero oc' = true.
Proof.
  exact (tool_only_follows_a_merge_that_exited_nonzero Interactive
           feature_plan "config.json" second_merge_fails
           [(switch_cmd feature_plan, done); (update_cmd feature_plan, done);
            (merge_cmd feature_plan (RevInt 42), done);
            (merge_cmd feature_plan (RevInt 43), conflict)]
           [] done eq_refl).
Defined.

Lemma announced_line m t :
  begins_with_line t = true -> announced (Print m :: t) = announced t.
Proof. destruct t as [|[m'|i oc] t]; [discriminate|reflexivity|discriminate]. Qed.

Lemma rollback_announced p n rho res :
  rollback p n rho res ->
  begins_with_line rho = true /\ announced rho = true.
Proof.
  induction 1 as [n oc E|oc e E He|n oc b rho res E Hb R [B IH]];
    (split; [reflexivity|]); try reflexivity.
  change (announced (Print b :: Print MsgReverting :: rho) = true).
  rewrite announced_line by reflexivity.
  rewrite announced_line by exact B. exact IH.
Qed.

Lemma loop_announced p v revs delta res :
  loop_shape p v revs delta res ->
  begins_with_line delta = true /\ announced delta = true.
Proof.
  intros L; loop_induction L; (split; [reflexivity|]);
    try destruct IH as [B IH];
    try destruct (rollback_announced _ _ _ _ R) as [B IH].
  - reflexivity.
  - change (announced (Print (MsgMerged (str_revision r)) :: delta) = true).
    now rewrite announced_line.
  - change (announced (Print (MsgMergeFailed (banner_sep v) (str_revision r) e) ::
                       Print MsgReverting :: rho) = true).
    rewrite announced_line by reflexivity. now rewrite announced_line.
  - change (announced (Print MsgPleaseResolve ::
                       Print (MsgMerged (str_revision r)) :: delta) = true).
    rewrite announced_line by reflexivity. now rewrite announced_line.
  - change (announced (Print notice :: rho) = true).
    now rewrite announced_line.
  - change (announced (Print (MsgMergeFailed (banner_sep v) (str_revision r) e') ::
                       Print MsgReverting :: rho) = true).
    rewrite announced_line by reflexivity. now rewrite announced_line.
Qed.

(** X18. No process is started silently: in the trace of a run of either
    script every process comes right after the line that announces it,
    the switch after [Switching to branch], the update after [Updating],
    a merge after [Merging revision], a revert after [Reverting all
    changes in the working directory] and the interactive tool after
    [Launching TortoiseSVN to resolve conflicts]. *)
Theorem every_process_is_announced
    (v : variant) (config_file : string) (disk : file_state) (o : oracle) :
  announced (snd (run v config_file disk o)) = true.
Proof.
  destruct disk as [| | |e| |c]; try (destruct v; reflexivity).
  destruct (accepted c) eqn:A.
  2:{ rewrite (run_refused v config_file c o A). reflexivity. }
  destruct (accepted_plan c A) as (p & V & ->).
  run_cases (run_conforms v p config_file o V).
  - destruct (rollback_announced _ _ _ _ R) as [B IH].
    change (announced (Print (MsgErrorOccurred (banner_sep v) e) :: Print MsgReverting :: rho)
            = true).
    rewrite announced_line by reflexivity. now rewrite announced_line.
  - destruct (rollback_announced _ _ _ _ R) as [B IH].
    change (announced (Print (MsgErrorOccurred (banner_sep v) e) :: Print MsgReverting :: rho)
            = true).
    rewrite announced_line by reflexivity. now rewrite announced_line.
  - exact (proj2 (loop_announced _ _ _ _ _ L)).
Qed.
